(** * hekaanom: window, span and bin filters

  A shallow embedding of the three streaming filters of the hekaanom
  plugin (window_filter.go, the gather filter and the bin filter) and
  the properties their specification states about them.

  Conventions.
  - A goroutine that ranges over its input channel and sends on its
    output channel is a fold of a step function over the list of
    received items; the items sent are collected in order.
  - A Go map from series names is a [gmap string]; a [*T] stored in a
    map is the map entry itself, so a write through the pointer is an
    insert at the key the pointer was read from.
  - [float64] is Rocq's primitive binary64 [float].
  - A run-time panic ends the run: the step functions return an
    [option], and [None] is a panic (or, for a loop run on fuel, a loop
    that has not ended).
  - The struct declarations (Metric, Window, ruling, span, Bin) are not
    part of the listed sources; the records below carry the fields the
    filters read and write, under the names the filters use. *)

From Stdlib Require Import ZArith Lia PrimFloat Sorted.
From stdpp Require Import gmap strings list fin_maps.

Open Scope Z_scope.

(** ** Go's [time] package, as far as the filters use it *)

Module GoTime.

(** [time.Duration]: a signed 64-bit count of nanoseconds. *)
Definition Duration := Z.

(** [time.Time]: an instant, counted in nanoseconds from the zero
    Time (January 1, year 1, 00:00:00 UTC).  The library stores whole
    seconds in an int64, which covers a far larger range than any
    Duration; instants are left unbounded here.  The methods below go
    by the instant.  A Time also points to its Location, which [==]
    compares; that matters where Times index a map, and the Location is
    kept beside the instant there ([BinFilter.Located]).  Monotonic
    readings are not modelled. *)
Definition Time := Z.

Definition minDuration : Duration := - 2 ^ 63.
Definition maxDuration : Duration := 2 ^ 63 - 1.

(** Two's-complement wrap-around of int64 arithmetic. *)
Definition wrap64 (z : Z) : Z := (z + 2 ^ 63) mod 2 ^ 64 - 2 ^ 63.

Definition Second : Duration := 1000000000.
Definition Hour : Duration := 3600 * Second.

(** [time.Duration(n) * time.Second] for an int64 [n]. *)
Definition seconds (n : Z) : Duration := wrap64 (n * Second).

(** [int64(d / time.Second)]: Go's integer division truncates
    towards zero. *)
Definition wholeSeconds (d : Duration) : Z := Z.quot d Second.

Definition Add (t : Time) (d : Duration) : Time := t + d.

(** [t.Sub(u)] saturates at the ends of the Duration range. *)
Definition Sub (t u : Time) : Duration :=
  let d := t - u in
  if d <? minDuration then minDuration
  else if maxDuration <? d then maxDuration
  else d.

Definition After (t u : Time) : bool := u <? t.
Definition Equal (t u : Time) : bool := t =? u.

(** [t.Truncate(d)] rounds [t] down to a multiple of [d] since the
    zero Time; for [d <= 0] it returns [t]. *)
Definition Truncate (t : Time) (d : Duration) : Time :=
  if d <=? 0 then t else t - t mod d.

End GoTime.

Import GoTime.

(** ** Data model *)

Definition error := string.

(** What a fallible Go function returns: a value, or an [error]. *)
Inductive result (A : Type) : Type :=
| Ok (a : A)
| Err (e : error).
Arguments Ok {A} a.
Arguments Err {A} e.

Module Metric.
(** Modelled from the spec: the declaration of [Metric] is not among the
    sources.  "Metric: series identifier, timestamp, numeric value,
    opaque passthrough payload". *)
Record t {Payload : Type} := {
  Series : string;
  Timestamp : Time;
  Value : float;
  Passthrough : Payload }.
Arguments t : clear implicits.
End Metric.
Abbreviation Metric := Metric.t.

Module Window.
(** Modelled from the spec: the declaration of [Window] is not among the
    sources.  "Window: series, start (inclusive), end (exclusive),
    aggregated value, passthrough carried from the metrics that composed
    it". *)
Record t {Payload : Type} := {
  Start : Time;
  End_ : Time;
  Series : string;
  Value : float;
  Passthrough : Payload }.
Arguments t : clear implicits.
End Window.
Abbreviation Window := Window.t.

(** ** window_filter.go *)

Module WindowFilter.
Section Filter.
Context {Payload : Type}.

Record WindowConfig := { WindowWidth : Z }.

Record t := {
  windows : gmap string (Window Payload);
  config : WindowConfig }.

(** [Init]: rejects a non-positive width, otherwise starts from an
    empty map. *)
Definition Init (cfg : WindowConfig) : result t :=
  if WindowWidth cfg <=? 0
  then Err "'window_width' setting must be greater than zero."%string
  else Ok {| windows := ∅; config := cfg |}.

(** [flushWindow]: the window sent on [out] and the value the
    accumulator is reset to. *)
Definition flushWindow (f : t) (window : Window Payload)
  : Window Payload * Window Payload :=
  let closed :=
    {| Window.Start := Window.Start window;
       Window.End_ := Add (Window.End_ window) (seconds (WindowWidth (config f)));
       Window.Series := Window.Series window;
       Window.Value := Window.Value window;
       Window.Passthrough := Window.Passthrough window |} in
  (closed,
   {| Window.Start := 0;
      Window.End_ := 0;
      Window.Series := Window.Series window;
      Window.Value := 0%float;
      Window.Passthrough := Window.Passthrough window |}).

(** One iteration of the loop of [Connect]. *)
Definition Connect_step (f : t) (metric : Metric Payload)
  : t * list (Window Payload) :=
  let window :=
    match windows f !! Metric.Series metric with
    | Some w => w
    | None =>
        {| Window.Start := Metric.Timestamp metric;
           Window.End_ := 0;
           Window.Series := Metric.Series metric;
           Window.Value := 0%float;
           Window.Passthrough := Metric.Passthrough metric |}
    end in
  let windowAge := Sub (Metric.Timestamp metric) (Window.Start window) in
  let '(window, out) :=
    if WindowWidth (config f) <=? wholeSeconds windowAge
    then
      let '(closed, fresh) := flushWindow f window in
      ({| Window.Start := Metric.Timestamp metric;
          Window.End_ := Window.End_ fresh;
          Window.Series := Window.Series fresh;
          Window.Value := Window.Value fresh;
          Window.Passthrough := Window.Passthrough fresh |}, [closed])
    else (window, []) in
  let window :=
    {| Window.Start := Window.Start window;
       Window.End_ := Metric.Timestamp metric;
       Window.Series := Window.Series window;
       Window.Value := (Window.Value window + Metric.Value metric)%float;
       Window.Passthrough := Window.Passthrough window |} in
  ({| windows := <[Metric.Series metric := window]> (windows f);
      config := config f |}, out).

(** [Connect]: the windows sent while the metrics of [ms] arrive. *)
Fixpoint Connect (f : t) (ms : list (Metric Payload))
  : t * list (Window Payload) :=
  match ms with
  | [] => (f, [])
  | m :: ms' =>
      let '(f1, out1) := Connect_step f m in
      let '(f2, out2) := Connect f1 ms' in
      (f2, out1 ++ out2)
  end.

(** The running sum as the loop computes it: left to right, starting
    from the accumulator's value. *)
Definition absorb (acc : float) (ms : list (Metric Payload)) : float :=
  fold_left (fun a m => (a + Metric.Value m)%float) ms acc.

(** Timestamp of the last metric of [ms], or [e] if there is none. *)
Definition lastTimestamp (e : Time) (ms : list (Metric Payload)) : Time :=
  fold_left (fun _ m => Metric.Timestamp m) ms e.

(** A metric of series [k] that arrives less than [width] whole seconds
    after [start]. *)
Definition within (width : Z) (k : string) (start : Time)
  (m : Metric Payload) : Prop :=
  Metric.Series m = k /\
  wholeSeconds (Sub (Metric.Timestamp m) start) < width.

(** The accumulator [w] after the metrics of [ms] were added to it. *)
Definition accumulate (w : Window Payload) (ms : list (Metric Payload))
  : Window Payload :=
  {| Window.Start := Window.Start w;
     Window.End_ := lastTimestamp (Window.End_ w) ms;
     Window.Series := Window.Series w;
     Window.Value := absorb (Window.Value w) ms;
     Window.Passthrough := Window.Passthrough w |}.

(** The metrics of series [k] among [ms], in order of arrival. *)
Definition ofSeries (k : string) (ms : list (Metric Payload))
  : list (Metric Payload) :=
  filter (fun m => Metric.Series m = k) ms.

(** The passthrough of the first metric of series [k] in [ms]. *)
Definition firstPayload (k : string) (ms : list (Metric Payload))
  : option Payload :=
  Metric.Passthrough <$> head (ofSeries k ms).

(** Every window sits under its series and carries the passthrough of
    the first metric of that series in [seen]; a series without a window
    has no metric in [seen]. *)
Definition tracks (seen : list (Metric Payload)) (f : t) : Prop :=
  forall k,
    match windows f !! k with
    | Some w =>
        Window.Series w = k /\
        firstPayload k seen = Some (Window.Passthrough w)
    | None => ofSeries k seen = []
    end.

(** Every accumulator starts no later than it ends, and ends no later
    than the metrics of its series that are still to come. *)
Definition settled (f : t) (ms : list (Metric Payload)) : Prop :=
  forall k w, windows f !! k = Some w ->
    Window.Start w <= Window.End_ w /\
    Forall (fun m => Metric.Series m = k ->
                     Window.End_ w <= Metric.Timestamp m) ms.

(** [m1] arrives before [m2]: if they are of one series, [m2] is not
    older than [m1]. *)
Definition inOrder (m1 m2 : Metric Payload) : Prop :=
  Metric.Series m1 = Metric.Series m2 ->
  Metric.Timestamp m1 <= Metric.Timestamp m2.

End Filter.
Arguments t : clear implicits.
End WindowFilter.

(** ** Rulings and spans *)

(** [stats.Float64Data] and the type of the statistic functions,
    [func(stats.Float64Data) (float64, error)]. *)
Definition Float64Data := list float.
Definition statistic := Float64Data -> result float.

Module ruling.
(** Modelled from the spec: the declaration of [ruling] is not among
    the sources.  "Ruling: a Window annotated with anomalous: boolean, a
    named numeric field used as the per-window magnitude".  [Window] and
    [Anomalous] are the fields [Connect] reads; [floats] holds the
    float64 fields of the struct by name. *)
Record t {Payload : Type} := {
  Window : Window.t Payload;
  Anomalous : bool;
  floats : gmap string float }.
Arguments t : clear implicits.

(** What [getRulingValue] can see of a [reflect.Value]: the zero Value
    ([IsValid] is false), a float64, or a value of another kind, on which
    [Float] panics. *)
Inductive Value := Invalid | Float64 (v : float) | OtherKind.

(** The names of the fields that are not floats: a struct and a bool. *)
Definition notFloat (name : string) : bool :=
  String.eqb name "Window" || String.eqb name "Anomalous".

(** [reflect.Indirect(reflect.ValueOf(r)).FieldByName(name)]. *)
Definition FieldByName {Payload : Type} (r : t Payload) (name : string)
  : Value :=
  if notFloat name then OtherKind
  else match floats r !! name with
       | Some v => Float64 v
       | None => Invalid
       end.
End ruling.
Abbreviation ruling := ruling.t.

Module span.
(** Modelled from the spec: the declaration of [span] is not among the
    sources.  "Span: series, ordered sequence of magnitudes, start, end,
    duration (end - start), aggregate score, passthrough". *)
Record t {Payload : Type} := {
  Series : string;
  Values : Float64Data;
  Start : Time;
  End_ : Time;
  Duration : GoTime.Duration;
  Score : float;
  Passthrough : Payload }.
Arguments t : clear implicits.

Section Methods.
Context {Payload : Type}.

Definition set_Values (vs : Float64Data) (s : t Payload) : t Payload :=
  {| Series := Series s; Values := vs; Start := Start s; End_ := End_ s;
     Duration := Duration s; Score := Score s; Passthrough := Passthrough s |}.

Definition set_End (e : Time) (s : t Payload) : t Payload :=
  {| Series := Series s; Values := Values s; Start := Start s; End_ := e;
     Duration := Duration s; Score := Score s; Passthrough := Passthrough s |}.

Definition set_Duration (d : GoTime.Duration) (s : t Payload) : t Payload :=
  {| Series := Series s; Values := Values s; Start := Start s; End_ := End_ s;
     Duration := d; Score := Score s; Passthrough := Passthrough s |}.

Definition set_Score (x : float) (s : t Payload) : t Payload :=
  {| Series := Series s; Values := Values s; Start := Start s; End_ := End_ s;
     Duration := Duration s; Score := x; Passthrough := Passthrough s |}.

(** Modelled from the spec: [CalcScore] is declared with the struct,
    outside the listed sources.  "computes span.score by applying the
    configured aggregate statistic over the magnitude sequence"; a
    failure of the statistic is the error returned, and the score is
    then left as it was. *)
Definition CalcScore (s : t Payload) (agg : statistic)
  : t Payload * option error :=
  match agg (Values s) with
  | Ok x => (set_Score x s, None)
  | Err e => (s, Some e)
  end.

End Methods.
End span.
Abbreviation span := span.t.
Abbreviation AnomalousSpan := span.t.

(** ** The gather filter *)

Module gatherFilter.

Record GatherConfig := {
  Disabled : bool;
  SpanWidth : Z;
  Statistic : string;
  ValueField : string;
  LastDate : string }.

Definition defaultAggregator : string := "Sum".
Definition defaultValueField : string := "normed".

Section Filter.
Context {Payload : Type}.

(** The statistics of github.com/montanaflynn/stats the filter can be
    configured with. *)
Context (stats_Sum stats_Mean stats_Median stats_Midhinge stats_Trimean
         : statistic).

(** [time.Parse(time.RFC3339, s)]. *)
Context (parseRFC3339 : string -> result Time).

Definition aggFunctions : gmap string statistic :=
  <["Sum" := stats_Sum]>
  (<["Mean" := stats_Mean]>
  (<["Median" := stats_Median]>
  (<["Midhinge" := stats_Midhinge]>
  (<["Trimean" := stats_Trimean]> ∅)))).

(** The zero value of the map's element type, a nil func: calling it
    does not produce a score. *)
Definition nilStatistic : statistic :=
  fun _ => Err "nil statistic"%string.

(** [aggFunctions[name]], read without the [ok] flag. *)
Definition aggFunctions_at (name : string) : statistic :=
  default nilStatistic (aggFunctions !! name).

Record spanCache := {
  spans : gmap string (span Payload);
  nows : gmap string Time }.

(** The struct as [Init] leaves it on the enabled path: [aggregator]
    is a function and both maps exist.  (Before that the function and
    the maps are nil; [Connect] and the flushes are not meant to run on
    such a value.) *)
Record t := {
  config : GatherConfig;
  aggregator : statistic;
  cache : spanCache;
  lastDate : Time }.

Definition set_cache (c : spanCache) (f : t) : t :=
  {| config := config f; aggregator := aggregator f;
     cache := c; lastDate := lastDate f |}.

Definition set_spans (m : gmap string (span Payload)) (f : t) : t :=
  set_cache {| spans := m; nows := nows (cache f) |} f.

Definition set_nows (m : gmap string Time) (f : t) : t :=
  set_cache {| spans := spans (cache f); nows := m |} f.

Definition ConfigStruct : GatherConfig :=
  {| Disabled := false; SpanWidth := 0;
     Statistic := defaultAggregator; ValueField := defaultValueField;
     LastDate := "" |}.

Definition getAggregator (cfg : GatherConfig) : statistic :=
  if String.eqb (Statistic cfg) ""
  then aggFunctions_at defaultAggregator
  else
    match aggFunctions !! Statistic cfg with
    | Some fn => fn
    | None => aggFunctions_at defaultAggregator
    end.

(** [Init] on the receiver [f]; [now] is what [time.Now()] reads. *)
Definition Init (now : Time) (f : t) (cfg : GatherConfig) : t * option error :=
  let f := {| config := cfg; aggregator := aggregator f;
              cache := cache f; lastDate := lastDate f |} in
  if Disabled cfg then (f, None)
  else if SpanWidth cfg <=? 0
  then (f, Some "'span_width' must be greater than zero."%string)
  else
    let parsed :=
      if String.eqb (LastDate cfg) "today" then Ok now
      else if String.eqb (LastDate cfg) "yesterday"
      then Ok (Add now (wrap64 (wrap64 (-1 * 24) * Hour)))
      else parseRFC3339 (LastDate cfg) in
    match parsed with
    | Err e => (f, Some e)
    | Ok d =>
        ({| config := cfg; aggregator := getAggregator cfg;
            cache := {| spans := ∅; nows := ∅ |}; lastDate := d |}, None)
    end.

(** [None] is the run-time panic of [value.Float()] on a field that is
    not a float. *)
Definition getRulingValue (f : t) (r : ruling Payload)
  : option (result float) :=
  match ruling.FieldByName r (ValueField (config f)) with
  | ruling.Invalid => Some (Err "Ruling did not contain field."%string)
  | ruling.Float64 value => Some (Ok value)
  | ruling.OtherKind => None
  end.

Definition SpanExpired (f : t) (s : span Payload) (now : Time) : bool :=
  let willExpireAt := Add (span.End_ s) (seconds (SpanWidth (config f))) in
  let isExpired := After now willExpireAt in
  let outOfData :=
    Equal willExpireAt (lastDate f) || After willExpireAt (lastDate f) in
  isExpired || outOfData.

(** [flushSpan] on the span [s] stored at cache entry [k]: duration
    and score are written through the pointer, and a copy is sent
    unless the statistic failed. *)
Definition flushSpan (f : t) (k : string) (s : span Payload)
  : t * list (span Payload) :=
  let s := span.set_Duration (Sub (span.End_ s) (span.Start s)) s in
  let '(s, err) := span.CalcScore s (aggregator f) in
  let f := set_spans (<[k := s]> (spans (cache f))) f in
  match err with
  | Some _ => (f, [])
  | None => (f, [s])
  end.

Definition FlushSpan (f : t) (k : string) (s : span Payload)
  : t * list (span Payload) :=
  let '(f, out) := flushSpan f k s in
  let f := set_spans (delete (span.Series s) (spans (cache f))) f in
  let f := set_nows (delete (span.Series s) (nows (cache f))) f in
  (f, out).

(** The test of line 142: both magnitudes at least zero, or both below
    zero (a NaN is neither). *)
Definition sameSign (first value : float) : bool :=
  (0 <=? first)%float && (0 <=? value)%float
  || (first <? 0)%float && (value <? 0)%float.

Definition newSpan (r : ruling Payload) (value : float) : span Payload :=
  {| span.Series := Window.Series (ruling.Window r);
     span.Values := [value];
     span.Start := Window.Start (ruling.Window r);
     span.End_ := Window.End_ (ruling.Window r);
     span.Duration := 0;
     span.Score := 0%float;
     span.Passthrough := Window.Passthrough (ruling.Window r) |}.

(** One iteration of the loop of [Connect].  [None] is a run-time
    panic: that of [getRulingValue], or that of [s.Values[0]] on a span
    without magnitudes. *)
Definition Connect_step (f : t) (r : ruling Payload)
  : option (t * list (span Payload)) :=
  let thisSeries := Window.Series (ruling.Window r) in
  let now := Window.End_ (ruling.Window r) in
  let f := set_nows (<[thisSeries := now]> (nows (cache f))) f in
  match getRulingValue f r with
  | None => None
  | Some (Err _) => Some (f, [])
  | Some (Ok value) =>
      match spans (cache f) !! thisSeries with
      | Some s =>
          if ruling.Anomalous r then
            match span.Values s with
            | [] => None
            | first :: _ =>
                if sameSign first value then
                  let s := span.set_End now
                             (span.set_Values (span.Values s ++ [value]) s) in
                  Some (set_spans (<[thisSeries := s]> (spans (cache f))) f, [])
                else
                  let '(f, out) := FlushSpan f thisSeries s in
                  let s := newSpan r value in
                  Some (set_spans (<[thisSeries := s]> (spans (cache f))) f, out)
            end
          else if SpanExpired f s now then Some (FlushSpan f thisSeries s)
          else
            let s := span.set_Values (span.Values s ++ [value]) s in
            Some (set_spans (<[thisSeries := s]> (spans (cache f))) f, [])
      | None =>
          if ruling.Anomalous r then
            let s := newSpan r value in
            Some (set_spans (<[thisSeries := s]> (spans (cache f))) f, [])
          else Some (f, [])
      end
  end.

(** [Connect]: the spans sent while the rulings of [rs] arrive. *)
Fixpoint Connect (f : t) (rs : list (ruling Payload))
  : option (t * list (span Payload)) :=
  match rs with
  | [] => Some (f, [])
  | r :: rs' =>
      match Connect_step f r with
      | None => None
      | Some (f1, out1) =>
          match Connect f1 rs' with
          | None => None
          | Some (f2, out2) => Some (f2, out1 ++ out2)
          end
      end
  end.

(** *** The sweeps

    A [range] over a Go map visits the keys present when it starts, each
    once, in an order the runtime picks; an entry deleted before it is
    reached is not visited.  [order] is that order. *)

Definition FlushExpiredSpans_visit (now : Time)
  (acc : t * list (span Payload)) (k : string) : t * list (span Payload) :=
  let '(f, out) := acc in
  match spans (cache f) !! k with
  | Some s =>
      if SpanExpired f s now
      then let '(f, sent) := FlushSpan f k s in (f, out ++ sent)
      else (f, out)
  | None => (f, out)
  end.

Definition FlushExpiredSpans (order : list string) (now : Time) (f : t)
  : t * list (span Payload) :=
  fold_left (FlushExpiredSpans_visit now) order (f, []).

Definition FlushStuckSpans_visit
  (acc : t * list (span Payload)) (series : string)
  : t * list (span Payload) :=
  let '(f, out) := acc in
  match spans (cache f) !! series with
  | Some s =>
      let willExpireAt :=
        Add (span.End_ s) (seconds (SpanWidth (config f))) in
      if After willExpireAt (lastDate f)
      then
        let '(f, sent) := flushSpan f series s in
        let f := set_spans (delete series (spans (cache f))) f in
        let f := set_nows (delete series (nows (cache f))) f in
        (f, out ++ sent)
      else (f, out)
  | None => (f, out)
  end.

Definition FlushStuckSpans (order : list string) (f : t)
  : t * list (span Payload) :=
  fold_left FlushStuckSpans_visit order (f, []).

(** [order] is an order in which a [range] can visit the map [m]. *)
Definition visits {A} (order : list string) (m : gmap string A) : Prop :=
  NoDup order /\ forall k, k ∈ order <-> is_Some (m !! k).

(** *** Vocabulary of the statements about [Connect] *)

(** [r] is an anomalous ruling of series [k] whose field [field] holds
    the magnitude [v]. *)
Definition anomaly (field k : string) (r : ruling Payload) (v : float) : Prop :=
  Window.Series (ruling.Window r) = k /\
  ruling.Anomalous r = true /\
  ruling.FieldByName r field = ruling.Float64 v.

(** End of the window of the last ruling of [rs], or [e] if there is
    none. *)
Definition lastEnd (e : Time) (rs : list (ruling Payload)) : Time :=
  fold_left (fun _ r => Window.End_ (ruling.Window r)) rs e.

(** The last-seen times after the rulings of [rs] were received. *)
Definition observe (ns : gmap string Time) (rs : list (ruling Payload))
  : gmap string Time :=
  fold_left
    (fun m r => <[Window.Series (ruling.Window r) :=
                    Window.End_ (ruling.Window r)]> m) rs ns.

(** The span [s] after the rulings [rs], of magnitudes [vs], were
    merged into it. *)
Definition merged (s : span Payload) (rs : list (ruling Payload))
  (vs : Float64Data) : span Payload :=
  span.set_End (lastEnd (span.End_ s) rs)
    (span.set_Values (span.Values s ++ vs) s).

(** The span [s] as sent when the statistic gave [score]. *)
Definition finished (s : span Payload) (score : float) : span Payload :=
  span.set_Score score
    (span.set_Duration (Sub (span.End_ s) (span.Start s)) s).

(** The filter without the cache entry of series [k]: neither span nor
    last-seen time. *)
Definition forget (k : string) (f : t) : t :=
  {| config := config f; aggregator := aggregator f;
     cache := {| spans := delete k (spans (cache f));
                 nows := delete k (nows (cache f)) |};
     lastDate := lastDate f |}.

(** What flushing [s] sends: the finished span, or nothing when the
    statistic fails. *)
Definition sent (f : t) (s : span Payload) : list (span Payload) :=
  match aggregator f (span.Values s) with
  | Ok x => [finished s x]
  | Err _ => []
  end.

(** The filter [f] with the given maps as its cache. *)
Definition with_cache (f : t) (sp : gmap string (span Payload))
  (ns : gmap string Time) : t :=
  {| config := config f; aggregator := aggregator f;
     cache := {| spans := sp; nows := ns |};
     lastDate := lastDate f |}.

(** The per-series state machine that [Connect] runs: from the span of
    the ruling's series (if any) to the span it leaves and the spans it
    sends. *)
Definition transition (f : t) (o : option (span Payload)) (r : ruling Payload)
  : option (option (span Payload) * list (span Payload)) :=
  let now := Window.End_ (ruling.Window r) in
  match getRulingValue f r with
  | None => None
  | Some (Err _) => Some (o, [])
  | Some (Ok value) =>
      match o with
      | Some s =>
          if ruling.Anomalous r then
            match span.Values s with
            | [] => None
            | first :: _ =>
                if sameSign first value
                then Some (Some (merged s [r] [value]), [])
                else Some (Some (newSpan r value), sent f s)
            end
          else if SpanExpired f s now then Some (None, sent f s)
          else Some (Some (span.set_Values (span.Values s ++ [value]) s), [])
      | None =>
          if ruling.Anomalous r then Some (Some (newSpan r value), [])
          else Some (None, [])
      end
  end.

(** Whether [r] is a ruling of series [k]. *)
Definition ofSeries (k : string) (r : ruling Payload) : bool :=
  bool_decide (Window.Series (ruling.Window r) = k).

(** Two filters that differ at most in what they hold for series other
    than [k] (and in the last-seen times). *)
Definition agree (k : string) (f g : t) : Prop :=
  config f = config g /\ aggregator f = aggregator g /\
  lastDate f = lastDate g /\
  spans (cache f) !! k = spans (cache g) !! k.

(** What the expiry sweep at [now] leaves of the entry [o] of the span
    map, and what it sends for it. *)
Definition kept (f : t) (now : Time) (o : option (span Payload))
  : option (span Payload) :=
  match o with
  | Some s => if SpanExpired f s now then None else Some s
  | None => None
  end.

Definition swept (f : t) (now : Time) (o : option (span Payload))
  : list (span Payload) :=
  match o with
  | Some s => if SpanExpired f s now then sent f s else []
  | None => []
  end.

(** The test of [FlushStuckSpans]: the nominal expiry of [s] lies after
    the last date. *)
Definition stuck (f : t) (s : span Payload) : bool :=
  After (Add (span.End_ s) (seconds (SpanWidth (config f)))) (lastDate f).

(** A span as [flushSpan] stamps it: the duration is end minus start
    and the score is what the statistic gives on the magnitudes, of which
    there is at least one. *)
Definition stamped (agg : statistic) (s : span Payload) : Prop :=
  span.Duration s = Sub (span.End_ s) (span.Start s) /\
  span.Values s <> [] /\
  agg (span.Values s) = Ok (span.Score s).

(** Every cached span sits under its own series and has a magnitude. *)
Definition spans_wf (m : gmap string (span Payload)) : Prop :=
  forall k s, m !! k = Some s -> span.Series s = k /\ span.Values s <> [].

Definition cache_wf (f : t) : Prop := spans_wf (spans (cache f)).

End Filter.
Arguments t : clear implicits.
Arguments spanCache : clear implicits.
End gatherFilter.

(** ** The bin filter *)

Module Bin.
(** Modelled from the spec: the declaration of [Bin] is not among the
    sources.  "Bin: start, end (start + bin width), count, ordered list
    of contributing series identifiers (duplicates allowed)".  The
    count is an integer without a bound here. *)
Record t := {
  Start : Time;
  End_ : Time;
  Count : Z;
  Entries : list string }.
End Bin.
Abbreviation Bin := Bin.t.

Module BinFilter.

Record BinConfig := { BinWidth : Z }.

(** [Bins]: the bins by their start. *)
Record t := {
  bins : gmap Z Bin;
  config : BinConfig }.

Definition Init (cfg : BinConfig) : result t :=
  if BinWidth cfg <=? 0
  then Err "'bin_width' setting must be greater than zero."%string
  else Ok {| bins := ∅; config := cfg |}.

(** [binWidth := time.Duration(f.BinConfig.BinWidth) * time.Second]. *)
Definition binWidth (f : t) : Duration := seconds (BinWidth (config f)).

(** The loop of [spanToBins], run for at most [fuel] tests of its
    condition; [None] when the loop has not ended by then. *)
Fixpoint spanToBins_loop (fuel : nat) (width : Duration) (spanEnd now : Time)
  (acc : list Time) : option (list Time) :=
  match fuel with
  | O => None
  | S fuel' =>
      if negb (After now spanEnd)
      then spanToBins_loop fuel' width spanEnd (Add now width) (acc ++ [now])
      else Some acc
  end.

Section Filter.
Context {Payload : Type}.

Definition spanToBins (fuel : nat) (f : t) (s : AnomalousSpan Payload)
  : option (list Time) :=
  spanToBins_loop fuel (binWidth f) (span.End_ s)
    (Truncate (span.Start s) (binWidth f)) [].

(** The body of the inner loop of [Connect]: the bin at [binTime] is
    looked up or created, counted, given the series, and sent. *)
Definition touch (series : string) (f : t) (binTime : Time) : t * Bin :=
  let bin :=
    match bins f !! binTime with
    | Some b => b
    | None =>
        {| Bin.Start := binTime; Bin.End_ := Add binTime (binWidth f);
           Bin.Count := 0; Bin.Entries := [] |}
    end in
  let bin :=
    {| Bin.Start := Bin.Start bin; Bin.End_ := Bin.End_ bin;
       Bin.Count := Bin.Count bin + 1;
       Bin.Entries := Bin.Entries bin ++ [series] |} in
  ({| bins := <[binTime := bin]> (bins f); config := config f |}, bin).

Fixpoint touches (series : string) (f : t) (binTimes : list Time)
  : t * list Bin :=
  match binTimes with
  | [] => (f, [])
  | binTime :: rest =>
      let '(f1, b) := touch series f binTime in
      let '(f2, out) := touches series f1 rest in
      (f2, b :: out)
  end.

(** One iteration of the outer loop of [Connect]. *)
Definition Connect_span (fuel : nat) (f : t) (s : AnomalousSpan Payload)
  : option (t * list Bin) :=
  match spanToBins fuel f s with
  | None => None
  | Some binTimes => Some (touches (span.Series s) f binTimes)
  end.

(** [Connect]: the snapshots sent while the spans of [ss] arrive. *)
Fixpoint Connect (fuel : nat) (f : t) (ss : list (AnomalousSpan Payload))
  : option (t * list Bin) :=
  match ss with
  | [] => Some (f, [])
  | s :: ss' =>
      match Connect_span fuel f s with
      | None => None
      | Some (f1, out1) =>
          match Connect fuel f1 ss' with
          | None => None
          | Some (f2, out2) => Some (f2, out1 ++ out2)
          end
      end
  end.

End Filter.

(** *** Vocabulary of the statements about [Connect] *)

(** The bin at [binTime] as the filter sees it before a touch: the
    stored one, or a new one with no count and no entries. *)
Definition current (f : t) (binTime : Time) : Bin :=
  default {| Bin.Start := binTime; Bin.End_ := Add binTime (binWidth f);
             Bin.Count := 0; Bin.Entries := [] |}
          (bins f !! binTime).

(** The snapshot a touch by [series] sends for the bin at [binTime]. *)
Definition snapshot (series : string) (f : t) (binTime : Time) : Bin :=
  {| Bin.Start := Bin.Start (current f binTime);
     Bin.End_ := Bin.End_ (current f binTime);
     Bin.Count := Bin.Count (current f binTime) + 1;
     Bin.Entries := Bin.Entries (current f binTime) ++ [series] |}.

(** The count is at least one and is the number of entries. *)
Definition bin_ok (b : Bin) : Prop :=
  1 <= Bin.Count b /\ Bin.Count b = Z.of_nat (length (Bin.Entries b)).

Definition bins_ok (f : t) : Prop :=
  forall binTime b, bins f !! binTime = Some b -> bin_ok b.

(** A bin on the grid of width [d]: it starts at a multiple of [d]
    (counted from the zero Time) and is [d] long. *)
Definition on_grid (d : Duration) (b : Bin) : Prop :=
  Bin.Start b mod d = 0 /\ Bin.End_ b = Bin.Start b + d.

(** Every stored bin is on the grid and stored under its start. *)
Definition bins_on_grid (f : t) : Prop :=
  forall binTime b, bins f !! binTime = Some b ->
    Bin.Start b = binTime /\ on_grid (binWidth f) b.

(** The span from [start] to [finish], both included, meets the bin that
    covers [binTime, binTime + d). *)
Definition meets (d : Duration) (binTime : Time) (start finish : Time)
  : Prop :=
  start < binTime + d /\ binTime <= finish.

(** *** Locations

    A [time.Time] is an instant together with a pointer to a Location.
    [After], [Sub], [Equal] and the arithmetic of [Truncate] and [Add] go
    by the instant, and [Truncate] and [Add] hand the Location of their
    receiver on.  The operator [==] compares the pointer too, and [==]
    is what a map indexed by [time.Time] goes by: one instant in two
    Locations is two keys.  The definitions above index the bins by the
    instant; they are the filter fed with spans whose starts are all in
    one Location.  The definitions of [Located] keep the Location. *)

(** A Location pointer; nil, that is UTC, is [0]. *)
Definition Location := N.

Module Located.

(** [Bins]: the bins by their start, instant and Location. *)
Record t := {
  bins : gmap (Z * N) Bin;
  config : BinConfig }.

Definition Init (cfg : BinConfig) : result t :=
  if BinWidth cfg <=? 0
  then Err "'bin_width' setting must be greater than zero."%string
  else Ok {| bins := ∅; config := cfg |}.

Definition binWidth (f : t) : Duration := seconds (BinWidth (config f)).

Section Filter.
Context {Payload : Type}.

Definition spanToBins (fuel : nat) (f : t) (s : AnomalousSpan Payload)
  : option (list Time) :=
  spanToBins_loop fuel (binWidth f) (span.End_ s)
    (Truncate (span.Start s) (binWidth f)) [].

(** The body of the inner loop of [Connect], for a bin time of instant
    [binTime] in the Location [loc]. *)
Definition touch (series : string) (loc : Location) (f : t)
  (binTime : Time) : t * Bin :=
  let bin :=
    match bins f !! (binTime, loc) with
    | Some b => b
    | None =>
        {| Bin.Start := binTime; Bin.End_ := Add binTime (binWidth f);
           Bin.Count := 0; Bin.Entries := [] |}
    end in
  let bin :=
    {| Bin.Start := Bin.Start bin; Bin.End_ := Bin.End_ bin;
       Bin.Count := Bin.Count bin + 1;
       Bin.Entries := Bin.Entries bin ++ [series] |} in
  ({| bins := <[(binTime, loc) := bin]> (bins f); config := config f |},
   bin).

Fixpoint touches (series : string) (loc : Location) (f : t)
  (binTimes : list Time) : t * list Bin :=
  match binTimes with
  | [] => (f, [])
  | binTime :: rest =>
      let '(f1, b) := touch series loc f binTime in
      let '(f2, out) := touches series loc f1 rest in
      (f2, b :: out)
  end.

(** One iteration of the outer loop of [Connect], for a span that
    comes with the Location of its [Start]: the bin times that
    [spanToBins] lists are in that Location. *)
Definition Connect_span (fuel : nat) (f : t)
  (ls : Location * AnomalousSpan Payload) : option (t * list Bin) :=
  match spanToBins fuel f (snd ls) with
  | None => None
  | Some binTimes =>
      Some (touches (span.Series (snd ls)) (fst ls) f binTimes)
  end.

Fixpoint Connect (fuel : nat) (f : t)
  (ss : list (Location * AnomalousSpan Payload)) : option (t * list Bin) :=
  match ss with
  | [] => Some (f, [])
  | s :: ss' =>
      match Connect_span fuel f s with
      | None => None
      | Some (f1, out1) =>
          match Connect fuel f1 ss' with
          | None => None
          | Some (f2, out2) => Some (f2, out1 ++ out2)
          end
      end
  end.

(** The spans of [ss] whose start is in the Location [loc]. *)
Definition inLocation (loc : Location)
  (ss : list (Location * AnomalousSpan Payload))
  : list (AnomalousSpan Payload) :=
  snd <$> filter (fun ls => fst ls = loc) ss.

End Filter.

(** The bins of [F] in the Location [loc] are the bins of [f]. *)
Definition slice (loc : Location) (F : t) (f : BinFilter.t) : Prop :=
  config F = BinFilter.config f /\
  forall binTime : Time, bins F !! (binTime, loc) = BinFilter.bins f !! binTime.

End Located.

End BinFilter.

(** ** Sample data *)

Module Sample.

(** [stats.Sum]: an error on empty input, the running sum otherwise. *)
Definition sum : statistic :=
  fun vs =>
    match vs with
    | [] => Err "Input must not be empty."%string
    | _ => Ok (fold_left PrimFloat.add vs 0%float)
    end.

(** [stats.Mean]: the sum over the number of values. *)
Definition mean : statistic :=
  fun vs =>
    match vs with
    | [] => Err "Input must not be empty."%string
    | _ =>
        Ok (fold_left PrimFloat.add vs 0%float
            / fold_left (fun n _ => n + 1) vs 0)%float
    end.

(** A ruling of series A over the seconds [from, to), with its
    magnitude in the field [normed]. *)
Definition rule (from to : Z) (anomalous : bool) (normed : float)
  : ruling unit :=
  {| ruling.Window :=
       {| Window.Start := from * Second; Window.End_ := to * Second;
          Window.Series := "A"; Window.Value := normed;
          Window.Passthrough := tt |};
     ruling.Anomalous := anomalous;
     ruling.floats := {[ "normed"%string := normed ]} |}.

(** A gather filter with a span width of 60 seconds, the sum as its
    statistic and a last date far ahead. *)
Definition gatherer (sp : gmap string (span unit)) : gatherFilter.t unit :=
  {| gatherFilter.config :=
       {| gatherFilter.Disabled := false;
          gatherFilter.SpanWidth := 60;
          gatherFilter.Statistic := "Sum";
          gatherFilter.ValueField := "normed";
          gatherFilter.LastDate := "today" |};
     gatherFilter.aggregator := sum;
     gatherFilter.cache :=
       {| gatherFilter.spans := sp; gatherFilter.nows := ∅ |};
     gatherFilter.lastDate := 1000000 * Second |}.

(** A span of series A in progress over the seconds [from, to). *)
Definition open_span (from to : Z) (vs : Float64Data) : span unit :=
  {| span.Series := "A"; span.Values := vs;
     span.Start := from * Second; span.End_ := to * Second;
     span.Duration := 0; span.Score := 0%float; span.Passthrough := tt |}.

(** Two spans in progress: series A over the seconds [0, 30) and
    series B over the seconds [100, 200). *)
Definition two_spans : gmap string (span unit) :=
  <["A"%string := open_span 0 30 [3%float]]>
    (<["B"%string :=
         {| span.Series := "B"; span.Values := [(-1)%float];
            span.Start := 100 * Second; span.End_ := 200 * Second;
            span.Duration := 0; span.Score := 0%float;
            span.Passthrough := tt |}]> ∅).

(** The gatherer with its last date at second [last]. *)
Definition closing (last : Z) (sp : gmap string (span unit))
  : gatherFilter.t unit :=
  {| gatherFilter.config := gatherFilter.config (gatherer sp);
     gatherFilter.aggregator := sum;
     gatherFilter.cache :=
       {| gatherFilter.spans := sp; gatherFilter.nows := ∅ |};
     gatherFilter.lastDate := last * Second |}.

(** A ruling like [rule], of series B. *)
Definition rule_B (from to : Z) (anomalous : bool) (normed : float)
  : ruling unit :=
  {| ruling.Window :=
       {| Window.Start := from * Second; Window.End_ := to * Second;
          Window.Series := "B"; Window.Value := normed;
          Window.Passthrough := tt |};
     ruling.Anomalous := anomalous;
     ruling.floats := {[ "normed"%string := normed ]} |}.

(** A metric at second [at], with a text as its passthrough. *)
Definition metric (series : string) (at_ : Z) (value : float)
  (payload : string) : Metric string :=
  {| Metric.Series := series; Metric.Timestamp := at_ * Second;
     Metric.Value := value; Metric.Passthrough := payload |}.

(** A window filter of width 30 seconds without accumulators. *)
Definition windower : WindowFilter.t string :=
  {| WindowFilter.windows := ∅;
     WindowFilter.config := {| WindowFilter.WindowWidth := 30 |} |}.

(** A finished span of series [series] over the seconds [from, to] of
    the first of January 2016. *)
Definition day_span (series : string) (from to : Z) : span unit :=
  {| span.Series := series; span.Values := [1%float];
     span.Start := 735963 * 86400 * Second + from * Second;
     span.End_ := 735963 * 86400 * Second + to * Second;
     span.Duration := (to - from) * Second; span.Score := 1%float;
     span.Passthrough := tt |}.

(** Midnight of January 1, 2016 (UTC), counted from the zero Time. *)
Definition midnight : Time := 735963 * 86400 * Second.

Definition binner : BinFilter.t :=
  {| BinFilter.bins := ∅;
     BinFilter.config := {| BinFilter.BinWidth := 60 |} |}.

(** The same filter, with its bins by instant and Location. *)
Definition located_binner : BinFilter.Located.t :=
  {| BinFilter.Located.bins := ∅;
     BinFilter.Located.config := {| BinFilter.BinWidth := 60 |} |}.

(** Two spans over the first minutes of the day, the start of the first
    in UTC, the start of the second in another Location. *)
Definition two_Locations : list (BinFilter.Location * span unit) :=
  [(0%N, day_span "A" 0 150); (1%N, day_span "B" 70 130)].

End Sample.

(** * Properties *)

(** ** Time arithmetic *)

Section GoTime_facts.

Lemma wrap64_id z : minDuration <= z <= maxDuration -> wrap64 z = z.
Proof.
  unfold wrap64, minDuration, maxDuration. intros H.
  rewrite Z.mod_small; lia.
Qed.

Lemma seconds_small n :
  0 <= n <= 9223372036 -> seconds n = n * Second.
Proof.
  intros H. unfold seconds. apply wrap64_id.
  unfold minDuration, maxDuration, Second. lia.
Qed.

Lemma Sub_self t : Sub t t = 0.
Proof. unfold Sub. rewrite Z.sub_diag. reflexivity. Qed.

Lemma After_spec t u : After t u = true <-> u < t.
Proof. unfold After. apply Z.ltb_lt. Qed.

Lemma After_false t u : After t u = false <-> t <= u.
Proof. unfold After. rewrite Z.ltb_ge. reflexivity. Qed.

Lemma Truncate_pos t d :
  0 < d -> Truncate t d = d * (t / d) /\ Truncate t d <= t < Truncate t d + d.
Proof.
  intros Hd. unfold Truncate.
  destruct (Z.leb_spec d 0) as [H|_]; [lia|].
  pose proof (Z.mod_pos_bound t d Hd).
  pose proof (Z.div_mod t d ltac:(lia)).
  lia.
Qed.

Lemma Truncate_multiple t d :
  0 < d -> t mod d = 0 -> Truncate t d = t.
Proof.
  intros Hd Hm. unfold Truncate.
  destruct (Z.leb_spec d 0); lia.
Qed.

End GoTime_facts.

(** ** The window filter *)

Section WindowFilter_facts.
Context {Payload : Type}.
Implicit Types (f : WindowFilter.t Payload) (w : Window Payload)
  (m : Metric Payload) (ms : list (Metric Payload)).

Import WindowFilter.

Lemma Connect_app f ms1 ms2 :
  Connect f (ms1 ++ ms2) =
  let '(f1, out1) := Connect f ms1 in
  let '(f2, out2) := Connect f1 ms2 in
  (f2, out1 ++ out2).
Proof.
  revert f. induction ms1 as [|m ms1 IH]; intros f; simpl.
  - destruct (Connect f ms2); reflexivity.
  - destruct (Connect_step f m) as [f1 o1]. rewrite IH.
    destruct (Connect f1 ms1) as [f2 o2].
    destruct (Connect f2 ms2) as [f3 o3].
    rewrite app_assoc. reflexivity.
Qed.

(** A metric within the width is added to the accumulator and nothing
    is sent. *)
Lemma Connect_step_within f k w m :
  windows f !! k = Some w ->
  within (WindowWidth (config f)) k (Window.Start w) m ->
  Connect_step f m =
  ({| windows := <[k := accumulate w [m]]> (windows f); config := config f |},
   []).
Proof.
  intros Hw [Hk Hage]. unfold Connect_step. rewrite Hk, Hw.
  destruct (Z.leb_spec (WindowWidth (config f))
              (wholeSeconds (Sub (Metric.Timestamp m) (Window.Start w))));
    [lia|].
  reflexivity.
Qed.

(** A metric at or beyond the width closes the accumulator. *)
Lemma Connect_step_rollover f k w m :
  windows f !! k = Some w ->
  Metric.Series m = k ->
  WindowWidth (config f)
    <= wholeSeconds (Sub (Metric.Timestamp m) (Window.Start w)) ->
  Connect_step f m =
  ({| windows :=
        <[k := {| Window.Start := Metric.Timestamp m;
                  Window.End_ := Metric.Timestamp m;
                  Window.Series := Window.Series w;
                  Window.Value := (0 + Metric.Value m)%float;
                  Window.Passthrough := Window.Passthrough w |}]> (windows f);
      config := config f |},
   [ {| Window.Start := Window.Start w;
        Window.End_ := Add (Window.End_ w) (seconds (WindowWidth (config f)));
        Window.Series := Window.Series w;
        Window.Value := Window.Value w;
        Window.Passthrough := Window.Passthrough w |} ]).
Proof.
  intros Hw Hk Hage. unfold Connect_step. rewrite Hk, Hw.
  destruct (Z.leb_spec (WindowWidth (config f))
              (wholeSeconds (Sub (Metric.Timestamp m) (Window.Start w))));
    [|lia].
  reflexivity.
Qed.

Lemma Connect_within f k w ms :
  windows f !! k = Some w ->
  Forall (within (WindowWidth (config f)) k (Window.Start w)) ms ->
  Connect f ms =
  ({| windows := <[k := accumulate w ms]> (windows f); config := config f |},
   []).
Proof.
  revert f w. induction ms as [|m ms IH]; intros f w Hw Hall.
  - simpl. destruct w, f; simpl in *.
    unfold accumulate; simpl. rewrite insert_id by assumption. reflexivity.
  - inversion Hall as [|? ? Hm Hms]; subst. simpl.
    rewrite (Connect_step_within f k w m Hw Hm).
    rewrite (IH _ (accumulate w [m])); simpl.
    + rewrite insert_insert_eq. reflexivity.
    + apply lookup_insert_eq.
    + exact Hms.
Qed.

(** The window sent at a rollover and the accumulator that follows it. *)
Lemma Connect_rollover f k w ms trig :
  windows f !! k = Some w ->
  Forall (within (WindowWidth (config f)) k (Window.Start w)) ms ->
  Metric.Series trig = k ->
  WindowWidth (config f)
    <= wholeSeconds (Sub (Metric.Timestamp trig) (Window.Start w)) ->
  Connect f (ms ++ [trig]) =
  ({| windows :=
        <[k := {| Window.Start := Metric.Timestamp trig;
                  Window.End_ := Metric.Timestamp trig;
                  Window.Series := Window.Series w;
                  Window.Value := (0 + Metric.Value trig)%float;
                  Window.Passthrough := Window.Passthrough w |}]> (windows f);
      config := config f |},
   [ {| Window.Start := Window.Start w;
        Window.End_ := Add (lastTimestamp (Window.End_ w) ms)
                         (seconds (WindowWidth (config f)));
        Window.Series := Window.Series w;
        Window.Value := absorb (Window.Value w) ms;
        Window.Passthrough := Window.Passthrough w |} ]).
Proof.
  intros Hw Hall Hk Hage.
  rewrite Connect_app, (Connect_within f k w ms Hw Hall). simpl.
  rewrite (Connect_step_rollover _ k (accumulate w ms) trig);
    [ | apply lookup_insert_eq | exact Hk | exact Hage ].
  simpl. rewrite insert_insert_eq. reflexivity.
Qed.


(** The first metric of a series opens its accumulator; with a positive
    width it sends nothing. *)
Lemma Connect_step_first f m :
  windows f !! Metric.Series m = None ->
  0 < WindowWidth (config f) ->
  Connect_step f m =
  ({| windows :=
        <[Metric.Series m :=
            {| Window.Start := Metric.Timestamp m;
               Window.End_ := Metric.Timestamp m;
               Window.Series := Metric.Series m;
               Window.Value := (0 + Metric.Value m)%float;
               Window.Passthrough := Metric.Passthrough m |}]> (windows f);
      config := config f |}, []).
Proof.
  intros Hw Hpos. unfold Connect_step. rewrite Hw. simpl.
  rewrite Sub_self.
  destruct (Z.leb_spec (WindowWidth (config f)) (wholeSeconds 0)) as [H|_].
  - change (wholeSeconds 0) with 0 in H. lia.
  - reflexivity.
Qed.

(** From a series not seen before: the window sent at the first
    rollover sums every metric before the one that caused it. *)
Lemma Connect_first_window f k m0 ms trig :
  windows f !! k = None ->
  0 < WindowWidth (config f) ->
  Metric.Series m0 = k ->
  Forall (within (WindowWidth (config f)) k (Metric.Timestamp m0)) ms ->
  Metric.Series trig = k ->
  WindowWidth (config f)
    <= wholeSeconds (Sub (Metric.Timestamp trig) (Metric.Timestamp m0)) ->
  snd (Connect f (m0 :: ms ++ [trig])) =
  [ {| Window.Start := Metric.Timestamp m0;
       Window.End_ := Add (lastTimestamp 0 (m0 :: ms))
                        (seconds (WindowWidth (config f)));
       Window.Series := k;
       Window.Value := absorb 0%float (m0 :: ms);
       Window.Passthrough := Metric.Passthrough m0 |} ].
Proof.
  intros Hw Hpos Hk0 Hall Hk Hage. subst k. simpl.
  rewrite Connect_step_first by assumption.
  rewrite (Connect_rollover _ (Metric.Series m0)
             {| Window.Start := Metric.Timestamp m0;
                Window.End_ := Metric.Timestamp m0;
                Window.Series := Metric.Series m0;
                Window.Value := (0 + Metric.Value m0)%float;
                Window.Passthrough := Metric.Passthrough m0 |} ms trig);
    [ reflexivity | apply lookup_insert_eq | exact Hall | exact Hk | exact Hage ].
Qed.

(** A metric of another series leaves the accumulator of series [k]
    alone. *)
Lemma WindowFilter_other_series f m k :
  Metric.Series m <> k ->
  windows (fst (Connect_step f m)) !! k = windows f !! k.
Proof.
  intros Hne. unfold Connect_step.
  destruct (WindowWidth (config f) <=? _); simpl;
    apply lookup_insert_ne, Hne.
Qed.

End WindowFilter_facts.


(** ** The gather filter *)

Section gatherFilter_facts.
Context {Payload : Type}.
Implicit Types (f : gatherFilter.t Payload) (s : span Payload)
  (r : ruling Payload) (rs : list (ruling Payload)) (k : string)
  (v : float) (vs : Float64Data).

Import gatherFilter.

(** *** Expiry *)

Lemma SpanExpired_spec f s now :
  SpanExpired f s now = true <->
  Add (span.End_ s) (seconds (SpanWidth (config f))) < now \/
  lastDate f <= Add (span.End_ s) (seconds (SpanWidth (config f))).
Proof.
  unfold SpanExpired, After, Equal.
  rewrite !orb_true_iff, Z.ltb_lt, Z.eqb_eq, Z.ltb_lt. lia.
Qed.

(** C3. The expiry test is monotonic in [now]: a span expired at [t]
    is expired at every later [t']. *)
Theorem SpanExpired_monotonic f s (t t' : Time) :
  t < t' ->
  SpanExpired f s t = true ->
  SpanExpired f s t' = true.
Proof.
  intros Hlt. rewrite !SpanExpired_spec. lia.
Qed.

(** *** Single rulings *)

Lemma getRulingValue_Ok f r v :
  getRulingValue f r = Some (Ok v) <->
  ruling.FieldByName r (ValueField (config f)) = ruling.Float64 v.
Proof.
  unfold getRulingValue.
  destruct (ruling.FieldByName r (ValueField (config f)));
    split; congruence.
Qed.

Lemma Connect_cons f r rs f1 out1 :
  Connect_step f r = Some (f1, out1) ->
  Connect f (r :: rs) =
  match Connect f1 rs with
  | Some (f2, out2) => Some (f2, out1 ++ out2)
  | None => None
  end.
Proof. intros H. simpl. rewrite H. reflexivity. Qed.

Lemma Connect_cons_silent f r rs f1 :
  Connect_step f r = Some (f1, []) ->
  Connect f (r :: rs) = Connect f1 rs.
Proof.
  intros H. rewrite (Connect_cons _ _ _ _ _ H).
  destruct (Connect f1 rs) as [[f2 out2]|]; reflexivity.
Qed.

(** C7 (amended). A ruling that lacks the configured value field (the
    struct has no field of that name) is skipped after its window end was
    recorded as the last-seen time of its series: that entry is the only
    change; no span is created, changed, removed or sent for any series,
    and the rulings after it are processed from there. *)
Theorem Connect_step_missing_field f r rs :
  ruling.FieldByName r (ValueField (config f)) = ruling.Invalid ->
  let f' :=
    {| config := config f; aggregator := aggregator f;
       cache :=
         {| spans := spans (cache f);
            nows := <[Window.Series (ruling.Window r) :=
                        Window.End_ (ruling.Window r)]> (nows (cache f)) |};
       lastDate := lastDate f |} in
  getRulingValue f r = Some (Err "Ruling did not contain field."%string) /\
  Connect_step f r = Some (f', []) /\
  Connect f (r :: rs) = Connect f' rs.
Proof.
  intros Hnone f'.
  assert (Hstep : Connect_step f r = Some (f', [])).
  { unfold Connect_step, getRulingValue. simpl. rewrite Hnone. reflexivity. }
  split; [|split].
  - unfold getRulingValue. rewrite Hnone. reflexivity.
  - exact Hstep.
  - apply Connect_cons_silent, Hstep.
Qed.

(** C5. A ruling that is not anomalous, on a series whose span is not
    expired at that ruling's window end, adds its magnitude at the end
    of the span's sequence; the span stays in the cache with every other
    field as it was, and nothing is sent. *)
Theorem Connect_step_absorb f r s v :
  spans (cache f) !! Window.Series (ruling.Window r) = Some s ->
  ruling.Anomalous r = false ->
  getRulingValue f r = Some (Ok v) ->
  SpanExpired f s (Window.End_ (ruling.Window r)) = false ->
  let s' :=
    {| span.Series := span.Series s;
       span.Values := span.Values s ++ [v];
       span.Start := span.Start s;
       span.End_ := span.End_ s;
       span.Duration := span.Duration s;
       span.Score := span.Score s;
       span.Passthrough := span.Passthrough s |} in
  Connect_step f r =
  Some ({| config := config f; aggregator := aggregator f;
           cache :=
             {| spans := <[Window.Series (ruling.Window r) := s']>
                           (spans (cache f));
                nows := <[Window.Series (ruling.Window r) :=
                            Window.End_ (ruling.Window r)]> (nows (cache f)) |};
           lastDate := lastDate f |}, []).
Proof.
  intros Hs Hanom Hv Hexp s'.
  apply getRulingValue_Ok in Hv.
  unfold Connect_step, getRulingValue. simpl.
  rewrite Hv, Hs, Hanom.
  change (SpanExpired _ s (Window.End_ (ruling.Window r)))
    with (SpanExpired f s (Window.End_ (ruling.Window r))).
  rewrite Hexp. reflexivity.
Qed.

(** *** Flushing *)

Lemma flushSpan_Ok f k s x :
  aggregator f (span.Values s) = Ok x ->
  flushSpan f k s =
  (set_spans (<[k := finished s x]> (spans (cache f))) f, [finished s x]).
Proof.
  intros Hx. unfold flushSpan, span.CalcScore. simpl. rewrite Hx. reflexivity.
Qed.

Lemma flushSpan_Err f k s e :
  aggregator f (span.Values s) = Err e ->
  flushSpan f k s =
  (set_spans
     (<[k := span.set_Duration (Sub (span.End_ s) (span.Start s)) s]>
        (spans (cache f))) f, []).
Proof.
  intros Hx. unfold flushSpan, span.CalcScore. simpl. rewrite Hx. reflexivity.
Qed.

(** Whatever the statistic does, the entry of the flushed span's series
    leaves both maps. *)
Lemma FlushSpan_removes f s out f' :
  FlushSpan f (span.Series s) s = (f', out) ->
  spans (cache f') = delete (span.Series s) (spans (cache f)) /\
  nows (cache f') = delete (span.Series s) (nows (cache f)) /\
  config f' = config f /\ aggregator f' = aggregator f /\
  lastDate f' = lastDate f.
Proof.
  unfold FlushSpan, flushSpan.
  destruct (span.CalcScore _ _) as [s1 [e|]]; intros [= <- _]; simpl;
    rewrite delete_insert_eq; auto.
Qed.

Lemma FlushSpan_Ok f s x :
  aggregator f (span.Values s) = Ok x ->
  FlushSpan f (span.Series s) s = (forget (span.Series s) f, [finished s x]).
Proof.
  intros Hx. unfold FlushSpan. rewrite (flushSpan_Ok _ _ _ _ Hx). simpl.
  unfold forget, set_nows, set_spans, set_cache; simpl.
  rewrite delete_insert_eq. reflexivity.
Qed.

Lemma FlushSpan_Err f s e :
  aggregator f (span.Values s) = Err e ->
  FlushSpan f (span.Series s) s = (forget (span.Series s) f, []).
Proof.
  intros Hx. unfold FlushSpan. rewrite (flushSpan_Err _ _ _ _ Hx). simpl.
  unfold forget, set_nows, set_spans, set_cache; simpl.
  rewrite delete_insert_eq. reflexivity.
Qed.

Lemma forget_seen k (now : Time) f :
  forget k (set_nows (<[k := now]> (nows (cache f))) f) = forget k f.
Proof.
  unfold forget, set_nows, set_cache; simpl.
  rewrite delete_insert_eq. reflexivity.
Qed.

(** A ruling that is not anomalous and finds its series' span expired
    flushes it. *)
Lemma Connect_step_expired f r s v :
  spans (cache f) !! Window.Series (ruling.Window r) = Some s ->
  span.Series s = Window.Series (ruling.Window r) ->
  ruling.Anomalous r = false ->
  getRulingValue f r = Some (Ok v) ->
  SpanExpired f s (Window.End_ (ruling.Window r)) = true ->
  Connect_step f r =
  Some (forget (span.Series s) f,
        match aggregator f (span.Values s) with
        | Ok x => [finished s x]
        | Err _ => []
        end).
Proof.
  intros Hs Hk Hanom Hv Hexp.
  apply getRulingValue_Ok in Hv.
  unfold Connect_step, getRulingValue. simpl.
  rewrite Hv, Hs, Hanom.
  change (SpanExpired _ s (Window.End_ (ruling.Window r)))
    with (SpanExpired f s (Window.End_ (ruling.Window r))).
  rewrite Hexp, <- Hk.
  destruct (aggregator f (span.Values s)) as [x|e] eqn:Hagg.
  - rewrite (FlushSpan_Ok _ _ x) by exact Hagg. rewrite forget_seen. reflexivity.
  - rewrite (FlushSpan_Err _ _ e) by exact Hagg. rewrite forget_seen.
    reflexivity.
Qed.

(** An anomalous ruling whose magnitude has the other sign flushes the
    span of its series and opens a new one. *)
Lemma Connect_step_flip f r s first rest v :
  spans (cache f) !! Window.Series (ruling.Window r) = Some s ->
  span.Series s = Window.Series (ruling.Window r) ->
  span.Values s = first :: rest ->
  ruling.Anomalous r = true ->
  getRulingValue f r = Some (Ok v) ->
  sameSign first v = false ->
  Connect_step f r =
  Some (set_spans (<[span.Series s := newSpan r v]> (spans (cache f)))
          (forget (span.Series s) f),
        match aggregator f (span.Values s) with
        | Ok x => [finished s x]
        | Err _ => []
        end).
Proof.
  intros Hs Hk Hvals Hanom Hv Hsign.
  apply getRulingValue_Ok in Hv.
  unfold Connect_step, getRulingValue. simpl.
  rewrite Hv, Hs, Hanom, Hvals, Hsign, <- Hk, <- Hvals.
  destruct (aggregator f (span.Values s)) as [x|e] eqn:Hagg.
  - rewrite (FlushSpan_Ok _ _ x) by exact Hagg. rewrite forget_seen.
    unfold set_spans, forget, set_cache; simpl.
    rewrite insert_delete_eq. reflexivity.
  - rewrite (FlushSpan_Err _ _ e) by exact Hagg. rewrite forget_seen.
    unfold set_spans, forget, set_cache; simpl.
    rewrite insert_delete_eq. reflexivity.
Qed.

(** C6. When the statistic fails on the magnitudes of the span being
    flushed, nothing is sent, and the series' entry leaves both the span
    map and the last-seen map all the same; the loop of [Connect] goes on
    with the next ruling, on either path that flushes. *)
Theorem FlushSpan_statistic_failure f s e :
  aggregator f (span.Values s) = Err e ->
  FlushSpan f (span.Series s) s = (forget (span.Series s) f, []) /\
  spans (cache (forget (span.Series s) f)) !! span.Series s = None /\
  nows (cache (forget (span.Series s) f)) !! span.Series s = None /\
  (forall r rs v,
     spans (cache f) !! Window.Series (ruling.Window r) = Some s ->
     span.Series s = Window.Series (ruling.Window r) ->
     ruling.Anomalous r = false ->
     getRulingValue f r = Some (Ok v) ->
     SpanExpired f s (Window.End_ (ruling.Window r)) = true ->
     Connect f (r :: rs) = Connect (forget (span.Series s) f) rs) /\
  (forall r rs first rest v,
     spans (cache f) !! Window.Series (ruling.Window r) = Some s ->
     span.Series s = Window.Series (ruling.Window r) ->
     span.Values s = first :: rest ->
     ruling.Anomalous r = true ->
     getRulingValue f r = Some (Ok v) ->
     sameSign first v = false ->
     Connect f (r :: rs) =
     Connect (set_spans (<[span.Series s := newSpan r v]> (spans (cache f)))
                (forget (span.Series s) f)) rs).
Proof.
  intros Hagg. repeat split.
  - apply (FlushSpan_Err _ _ e), Hagg.
  - simpl. apply lookup_delete_eq.
  - simpl. apply lookup_delete_eq.
  - intros r rs v Hs Hk Hanom Hv Hexp.
    apply Connect_cons_silent.
    rewrite (Connect_step_expired f r s v) by assumption.
    rewrite Hagg. reflexivity.
  - intros r rs first rest v Hs Hk Hvals Hanom Hv Hsign.
    apply Connect_cons_silent.
    rewrite (Connect_step_flip f r s first rest v) by assumption.
    rewrite Hagg. reflexivity.
Qed.

(** *** Runs of anomalous rulings *)

Lemma Connect_app_silent f rs1 rs2 f1 :
  Connect f rs1 = Some (f1, []) ->
  Connect f (rs1 ++ rs2) = Connect f1 rs2.
Proof.
  revert f. induction rs1 as [|r rs1 IH]; intros f; simpl.
  - intros [= <-]. reflexivity.
  - destruct (Connect_step f r) as [[f' o1]|]; [|discriminate].
    destruct (Connect f' rs1) as [[f'' o2]|] eqn:Hrest; [|discriminate].
    intros [= <- Ho]. apply app_eq_nil in Ho as [-> ->].
    rewrite (IH f' Hrest).
    destruct (Connect f'' rs2) as [[? ?]|]; reflexivity.
Qed.

Lemma Connect_app_Some f rs1 rs2 f1 out1 f2 out2 :
  Connect f rs1 = Some (f1, out1) ->
  Connect f1 rs2 = Some (f2, out2) ->
  Connect f (rs1 ++ rs2) = Some (f2, out1 ++ out2).
Proof.
  revert f out1. induction rs1 as [|r rs1 IH]; intros f out1; simpl.
  - intros [= <- <-] H2. rewrite H2. reflexivity.
  - destruct (Connect_step f r) as [[f' o1]|]; [|discriminate].
    destruct (Connect f' rs1) as [[f'' o2]|] eqn:Hrest; [|discriminate].
    intros [= <- <-] H2.
    rewrite (IH f' o2 Hrest H2), app_assoc. reflexivity.
Qed.

Lemma with_cache_id f : with_cache f (spans (cache f)) (nows (cache f)) = f.
Proof. destruct f as [c a [sp ns] l]. reflexivity. Qed.

Lemma merged_nil s : merged s [] [] = s.
Proof.
  destruct s. unfold merged, span.set_End, span.set_Values; simpl.
  rewrite app_nil_r. reflexivity.
Qed.

Lemma merged_cons s r rs v vs :
  merged (merged s [r] [v]) rs vs = merged s (r :: rs) (v :: vs).
Proof.
  unfold merged, span.set_End, span.set_Values; simpl.
  rewrite <- app_assoc. reflexivity.
Qed.

(** An anomalous ruling on a series without a span opens one. *)
Lemma Connect_step_open f k r v :
  spans (cache f) !! k = None ->
  anomaly (ValueField (config f)) k r v ->
  Connect_step f r =
  Some (with_cache f (<[k := newSpan r v]> (spans (cache f)))
          (observe (nows (cache f)) [r]), []).
Proof.
  intros Hs (Hk & Hanom & Hv). subst k.
  unfold Connect_step, getRulingValue. simpl.
  rewrite Hv, Hs, Hanom. reflexivity.
Qed.

(** An anomalous ruling of the sign of the span's first magnitude is
    merged into the span and moves its end. *)
Lemma Connect_step_extend f k s first rest r v :
  spans (cache f) !! k = Some s ->
  span.Values s = first :: rest ->
  anomaly (ValueField (config f)) k r v ->
  sameSign first v = true ->
  Connect_step f r =
  Some (with_cache f (<[k := merged s [r] [v]]> (spans (cache f)))
          (observe (nows (cache f)) [r]), []).
Proof.
  intros Hs Hvals (Hk & Hanom & Hv) Hsign. subst k.
  unfold Connect_step, getRulingValue. simpl.
  rewrite Hv, Hs, Hanom, Hvals, Hsign, <- Hvals. reflexivity.
Qed.

Lemma Connect_run f k s first rest rs vs :
  spans (cache f) !! k = Some s ->
  span.Values s = first :: rest ->
  Forall2 (anomaly (ValueField (config f)) k) rs vs ->
  Forall (fun v => sameSign first v = true) vs ->
  Connect f rs =
  Some (with_cache f (<[k := merged s rs vs]> (spans (cache f)))
          (observe (nows (cache f)) rs), []).
Proof.
  intros Hs Hvals Hrun.
  remember (ValueField (config f)) as field eqn:Hfield.
  revert f s rest Hs Hvals Hfield.
  induction Hrun as [|r v rs vs Hr Hrun IH];
    intros f s rest Hs Hvals Hfield Hsign.
  - simpl. rewrite merged_nil, insert_id by exact Hs.
    rewrite with_cache_id. reflexivity.
  - inversion Hsign as [|? ? Hv Hvs]; subst.
    rewrite (Connect_cons_silent _ _ _ _
               (Connect_step_extend f k s first rest r v Hs Hvals Hr Hv)).
    rewrite (IH _ (merged s [r] [v]) (rest ++ [v])); simpl.
    + rewrite insert_insert_eq, merged_cons. reflexivity.
    + apply lookup_insert_eq.
    + rewrite Hvals. reflexivity.
    + reflexivity.
    + exact Hvs.
Qed.

(** From a series without a span: the run becomes one span in the
    cache and nothing is sent. *)
Lemma Connect_fresh_run f k r0 v0 rs vs :
  spans (cache f) !! k = None ->
  anomaly (ValueField (config f)) k r0 v0 ->
  Forall2 (anomaly (ValueField (config f)) k) rs vs ->
  Forall (fun v => sameSign v0 v = true) vs ->
  Connect f (r0 :: rs) =
  Some (with_cache f (<[k := merged (newSpan r0 v0) rs vs]> (spans (cache f)))
          (observe (nows (cache f)) (r0 :: rs)), []).
Proof.
  intros Hs Hr0 Hrun Hsign.
  rewrite (Connect_cons_silent _ _ _ _ (Connect_step_open f k r0 v0 Hs Hr0)).
  rewrite (Connect_run _ k (newSpan r0 v0) v0 [] rs vs); simpl.
  - rewrite insert_insert_eq. reflexivity.
  - apply lookup_insert_eq.
  - reflexivity.
  - exact Hrun.
  - exact Hsign.
Qed.

(** From a series with a span: a run that starts with the other sign
    sends the old span and becomes a new one. *)
Lemma Connect_flip_run f k s first rest r0 v0 rs vs :
  spans (cache f) !! k = Some s ->
  span.Series s = k ->
  span.Values s = first :: rest ->
  anomaly (ValueField (config f)) k r0 v0 ->
  sameSign first v0 = false ->
  Forall2 (anomaly (ValueField (config f)) k) rs vs ->
  Forall (fun v => sameSign v0 v = true) vs ->
  Connect f (r0 :: rs) =
  Some (with_cache f (<[k := merged (newSpan r0 v0) rs vs]> (spans (cache f)))
          (observe (delete k (nows (cache f))) rs), sent f s).
Proof.
  intros Hs Hser Hvals (Hk & Hanom & Hv) Hflip Hrun Hsign. subst k.
  assert (Hstep := Connect_step_flip f r0 s first rest v0).
  rewrite Hk in Hstep.
  specialize (Hstep Hs eq_refl Hvals Hanom
                (proj2 (getRulingValue_Ok f r0 v0) Hv) Hflip).
  rewrite (Connect_cons _ _ _ _ _ Hstep).
  rewrite (Connect_run _ (span.Series s) (newSpan r0 v0) v0 [] rs vs); simpl.
  - rewrite insert_insert_eq, app_nil_r. reflexivity.
  - apply lookup_insert_eq.
  - reflexivity.
  - exact Hrun.
  - exact Hsign.
Qed.

Lemma merged_newSpan k r0 v0 rs vs :
  Window.Series (ruling.Window r0) = k ->
  merged (newSpan r0 v0) rs vs =
  {| span.Series := k;
     span.Values := v0 :: vs;
     span.Start := Window.Start (ruling.Window r0);
     span.End_ := lastEnd (Window.End_ (ruling.Window r0)) rs;
     span.Duration := 0;
     span.Score := 0%float;
     span.Passthrough := Window.Passthrough (ruling.Window r0) |}.
Proof. intros <-. reflexivity. Qed.

Lemma sent_Ok f s x :
  aggregator f (span.Values s) = Ok x -> sent f s = [finished s x].
Proof. unfold sent. intros ->. reflexivity. Qed.

(** C1. On a series without a span, a run of anomalous rulings whose
    magnitudes have the sign of the first one becomes exactly one span:
    its magnitudes are those of the run in arrival order and its end is
    the end of the last window; nothing is sent meanwhile.  An anomalous
    ruling of the other sign sends that span and opens a new one from
    that ruling, which in turn collects its own run; when the new span is
    flushed (here by a third change of sign) the two spans have been sent
    in order, each with the magnitudes of its own run only. *)
Theorem Connect_sign_runs f k a0 va0 ras vas b0 vb0 rbs vbs c vc xa xb :
  let field := ValueField (config f) in
  let spanOf r0 rs vs :=
    {| span.Series := k;
       span.Values := vs;
       span.Start := Window.Start (ruling.Window r0);
       span.End_ := lastEnd (Window.End_ (ruling.Window r0)) rs;
       span.Duration := 0;
       span.Score := 0%float;
       span.Passthrough := Window.Passthrough (ruling.Window r0) |} in
  spans (cache f) !! k = None ->
  anomaly field k a0 va0 ->
  Forall2 (anomaly field k) ras vas ->
  Forall (fun v => sameSign va0 v = true) vas ->
  anomaly field k b0 vb0 ->
  sameSign va0 vb0 = false ->
  Forall2 (anomaly field k) rbs vbs ->
  Forall (fun v => sameSign vb0 v = true) vbs ->
  anomaly field k c vc ->
  sameSign vb0 vc = false ->
  aggregator f (va0 :: vas) = Ok xa ->
  aggregator f (vb0 :: vbs) = Ok xb ->
  (exists f1,
     Connect f (a0 :: ras) = Some (f1, []) /\
     spans (cache f1) !! k = Some (spanOf a0 ras (va0 :: vas))) /\
  (exists f2,
     Connect f ((a0 :: ras) ++ b0 :: rbs) =
       Some (f2, [finished (spanOf a0 ras (va0 :: vas)) xa]) /\
     spans (cache f2) !! k = Some (spanOf b0 rbs (vb0 :: vbs))) /\
  (exists f3,
     Connect f ((a0 :: ras) ++ (b0 :: rbs) ++ [c]) =
       Some (f3, [finished (spanOf a0 ras (va0 :: vas)) xa;
                  finished (spanOf b0 rbs (vb0 :: vbs)) xb]) /\
     spans (cache f3) !! k = Some (spanOf c [] [vc])).
Proof.
  intros field spanOf Hnone Ha0 Ha Hsa Hb0 Hflip Hb Hsb Hc Hflip' Hxa Hxb.
  pose proof (Connect_fresh_run f k a0 va0 ras vas Hnone Ha0 Ha Hsa) as HA.
  rewrite (merged_newSpan k) in HA by apply Ha0.
  change (Connect f (a0 :: ras) =
          Some (with_cache f (<[k := spanOf a0 ras (va0 :: vas)]>
                                (spans (cache f)))
                  (observe (nows (cache f)) (a0 :: ras)), [])) in HA.
  set (f1 := with_cache f _ _) in HA.
  assert (HB : Connect f1 (b0 :: rbs) =
               Some (with_cache f1 (<[k := spanOf b0 rbs (vb0 :: vbs)]>
                                      (spans (cache f1)))
                       (observe (delete k (nows (cache f1))) rbs),
                     [finished (spanOf a0 ras (va0 :: vas)) xa])).
  { rewrite (Connect_flip_run f1 k (spanOf a0 ras (va0 :: vas)) va0 vas
               b0 vb0 rbs vbs); try assumption; try reflexivity.
    - rewrite (merged_newSpan k) by apply Hb0.
      rewrite (sent_Ok _ _ xa) by exact Hxa. reflexivity.
    - apply lookup_insert_eq. }
  set (f2 := with_cache f1 _ _) in HB.
  assert (HC : Connect f2 [c] =
               Some (with_cache f2 (<[k := spanOf c [] [vc]]>
                                      (spans (cache f2)))
                       (delete k (nows (cache f2))),
                     [finished (spanOf b0 rbs (vb0 :: vbs)) xb])).
  { rewrite (Connect_flip_run f2 k (spanOf b0 rbs (vb0 :: vbs)) vb0 vbs
               c vc [] []); try assumption; try reflexivity;
      try constructor.
    - rewrite (merged_newSpan k) by apply Hc.
      rewrite (sent_Ok _ _ xb) by exact Hxb. reflexivity.
    - apply lookup_insert_eq. }
  split; [|split].
  - exists f1. split; [exact HA | apply lookup_insert_eq].
  - exists f2. split; [| apply lookup_insert_eq].
    rewrite (Connect_app_silent _ _ _ _ HA). exact HB.
  - set (f3 := with_cache f2 _ _) in HC.
    exists f3. split; [| apply lookup_insert_eq].
    rewrite (Connect_app_silent _ _ _ _ HA).
    apply (Connect_app_Some _ _ _ _ _ _ _ HB HC).
Qed.

(** *** The cache invariant *)

Lemma spans_wf_empty : spans_wf (Payload := Payload) ∅.
Proof. intros k s H. rewrite lookup_empty in H. discriminate. Qed.

Lemma spans_wf_insert (m : gmap string (span Payload)) k s :
  spans_wf m -> span.Series s = k -> span.Values s <> [] ->
  spans_wf (<[k := s]> m).
Proof.
  intros Hm Hk Hv k' s'. rewrite lookup_insert.
  destruct (decide (k = k')) as [<-|Hne].
  - intros [= <-]. auto.
  - apply Hm.
Qed.

Lemma spans_wf_delete (m : gmap string (span Payload)) k :
  spans_wf m -> spans_wf (delete k m).
Proof.
  intros Hm k' s'. rewrite lookup_delete.
  destruct (decide (k = k')); [discriminate | apply Hm].
Qed.

(** Whether [getRulingValue] returns depends on the configured name
    alone. *)
Lemma getRulingValue_returns f r :
  ruling.notFloat (ValueField (config f)) = false ->
  exists x, getRulingValue f r = Some x.
Proof.
  unfold getRulingValue, ruling.FieldByName. intros ->.
  destruct (ruling.floats r !! ValueField (config f)); eauto.
Qed.

Lemma getRulingValue_panics f r :
  ruling.notFloat (ValueField (config f)) = true ->
  getRulingValue f r = None.
Proof.
  unfold getRulingValue, ruling.FieldByName. intros ->. reflexivity.
Qed.

(** From a well-formed cache a ruling whose value could be looked up
    never hits the index panic, and leaves the cache well-formed. *)
Lemma Connect_step_returns f r x :
  cache_wf f ->
  getRulingValue f r = Some x ->
  exists f' out,
    Connect_step f r = Some (f', out) /\ cache_wf f' /\
    config f' = config f.
Proof.
  unfold cache_wf. intros Hwf Hx. unfold Connect_step.
  change (getRulingValue (set_nows _ f) r) with (getRulingValue f r).
  rewrite Hx. destruct x as [v|e]; [|eauto].
  simpl.
  destruct (spans (cache f) !! Window.Series (ruling.Window r))
    as [s|] eqn:Hs.
  - destruct (Hwf _ _ Hs) as [Hk Hne].
    destruct (ruling.Anomalous r).
    + destruct (span.Values s) as [|first rest] eqn:Hvals; [congruence|].
      destruct (sameSign first v).
      * eexists _, _. split; [reflexivity|]. simpl.
        split; [|reflexivity].
        apply spans_wf_insert; [exact Hwf|exact Hk|discriminate].
      * rewrite <- Hk.
        destruct (FlushSpan _ (span.Series s) s) as [f2 out] eqn:HF.
        apply FlushSpan_removes in HF as (Hsp & _ & Hcfg & _).
        eexists _, _. split; [reflexivity|]. simpl. rewrite Hsp. simpl.
        split; [|exact Hcfg].
        apply spans_wf_insert; [apply spans_wf_delete, Hwf| |discriminate].
        simpl. congruence.
    + rewrite <- Hk.
      destruct (SpanExpired _ s _).
      * destruct (FlushSpan _ (span.Series s) s) as [f2 out] eqn:HF.
        apply FlushSpan_removes in HF as (Hsp & _ & Hcfg & _).
        eexists _, _. split; [reflexivity|]. rewrite Hsp. simpl.
        split; [|exact Hcfg].
        apply spans_wf_delete, Hwf.
      * eexists _, _. split; [reflexivity|]. simpl.
        split; [|reflexivity].
        apply spans_wf_insert; [exact Hwf|reflexivity|].
        simpl. destruct (span.Values s); [congruence|discriminate].
  - destruct (ruling.Anomalous r); eexists _, _; (split; [reflexivity|]);
      simpl; (split; [|reflexivity]); [|exact Hwf].
    apply spans_wf_insert; [exact Hwf|reflexivity|discriminate].
Qed.

Lemma Connect_step_Some f r f' out :
  Connect_step f r = Some (f', out) ->
  exists x, getRulingValue f r = Some x.
Proof.
  unfold Connect_step.
  change (getRulingValue (set_nows _ f) r) with (getRulingValue f r).
  destruct (getRulingValue f r) as [x|]; [eauto|discriminate].
Qed.

(** A ruling that [Connect] got past leaves a well-formed cache
    well-formed. *)
Lemma Connect_step_keeps_wf f r f' out :
  cache_wf f ->
  Connect_step f r = Some (f', out) ->
  cache_wf f' /\ config f' = config f.
Proof.
  intros Hwf Hstep.
  destruct (getRulingValue f r) as [x|] eqn:Hx.
  - destruct (Connect_step_returns f r x Hwf Hx) as (f1 & o1 & H1 & Hw & Hc).
    rewrite H1 in Hstep. injection Hstep as <- _. auto.
  - unfold Connect_step in Hstep.
    change (getRulingValue (set_nows _ f) r) with (getRulingValue f r)
      in Hstep.
    rewrite Hx in Hstep. discriminate.
Qed.

(** When the configured name is not that of a field of another kind,
    a ruling never panics on a well-formed cache. *)
Lemma Connect_step_wf f r :
  cache_wf f ->
  ruling.notFloat (ValueField (config f)) = false ->
  exists f' out,
    Connect_step f r = Some (f', out) /\ cache_wf f' /\
    config f' = config f.
Proof.
  intros Hwf Hname.
  destruct (getRulingValue_returns f r Hname) as [x Hx].
  exact (Connect_step_returns f r x Hwf Hx).
Qed.

(** [Connect] is then total on well-formed caches. *)
Lemma Connect_wf f rs :
  cache_wf f ->
  ruling.notFloat (ValueField (config f)) = false ->
  exists f' out, Connect f rs = Some (f', out) /\ cache_wf f'.
Proof.
  revert f. induction rs as [|r rs IH]; intros f Hwf Hname; simpl.
  - eauto.
  - destruct (Connect_step_wf f r Hwf Hname) as (f1 & o1 & -> & Hwf1 & Hc).
    rewrite <- Hc in Hname.
    destruct (IH f1 Hwf1 Hname) as (f2 & o2 & -> & Hwf2). eauto.
Qed.

Lemma FlushSpan_out_series f k s f' out :
  FlushSpan f k s = (f', out) ->
  Forall (fun s' => span.Series s' = span.Series s) out.
Proof.
  unfold FlushSpan, flushSpan, span.CalcScore. simpl.
  destruct (aggregator f (span.Values s)); simpl; intros [= _ <-];
    repeat constructor.
Qed.

(** A ruling of another series leaves the span of series [k] alone and
    sends nothing of series [k]. *)
Lemma Connect_step_other_series f r k f' out :
  cache_wf f ->
  Window.Series (ruling.Window r) <> k ->
  Connect_step f r = Some (f', out) ->
  spans (cache f') !! k = spans (cache f) !! k /\
  Forall (fun s => span.Series s <> k) out.
Proof.
  unfold cache_wf. intros Hwf Hne. unfold Connect_step.
  destruct (getRulingValue _ r) as [[v|e]|];
    [|intros [= <- <-]; auto|discriminate].
  simpl.
  destruct (spans (cache f) !! Window.Series (ruling.Window r))
    as [s|] eqn:Hs.
  - destruct (Hwf _ _ Hs) as [Hk Hnil].
    destruct (ruling.Anomalous r).
    + destruct (span.Values s) as [|first rest] eqn:Hvals; [congruence|].
      destruct (sameSign first v).
      * intros [= <- <-]. simpl. rewrite lookup_insert_ne by exact Hne. auto.
      * rewrite <- Hk in *.
        destruct (FlushSpan _ (span.Series s) s) as [f2 out2] eqn:HF.
        pose proof (FlushSpan_out_series _ _ _ _ _ HF) as Hout.
        apply FlushSpan_removes in HF as (Hsp & _).
        intros [= <- <-]. simpl. rewrite Hsp. simpl.
        rewrite lookup_insert_ne, lookup_delete_ne by exact Hne.
        split; [reflexivity|].
        eapply Forall_impl; [exact Hout|]. simpl. congruence.
    + rewrite <- Hk in *.
      destruct (SpanExpired _ s _).
      * destruct (FlushSpan _ (span.Series s) s) as [f2 out2] eqn:HF.
        pose proof (FlushSpan_out_series _ _ _ _ _ HF) as Hout.
        apply FlushSpan_removes in HF as (Hsp & _).
        intros [= <- <-]. rewrite Hsp. simpl.
        rewrite lookup_delete_ne by exact Hne.
        split; [reflexivity|].
        eapply Forall_impl; [exact Hout|]. simpl. congruence.
      * intros [= <- <-]. simpl. rewrite lookup_insert_ne by exact Hne. auto.
  - destruct (ruling.Anomalous r); intros [= <- <-]; simpl; [|auto].
    rewrite lookup_insert_ne by exact Hne. auto.
Qed.

(** *** Series are independent *)

Lemma filter_Forall_id {A} (P : A -> Prop) `{!forall x, Decision (P x)}
  (l : list A) : Forall P l -> filter P l = l.
Proof.
  induction 1 as [|x l Hx _ IH]; [reflexivity|].
  rewrite filter_cons_True by exact Hx. rewrite IH. reflexivity.
Qed.

Lemma filter_Forall_nil {A} (P : A -> Prop) `{!forall x, Decision (P x)}
  (l : list A) : Forall (fun x => ~ P x) l -> filter P l = [].
Proof.
  induction 1 as [|x l Hx _ IH]; [reflexivity|].
  rewrite filter_cons_False by exact Hx. exact IH.
Qed.

Lemma FlushSpan_sent f s :
  FlushSpan f (span.Series s) s = (forget (span.Series s) f, sent f s).
Proof.
  unfold sent. destruct (aggregator f (span.Values s)) as [x|e] eqn:Hagg.
  - apply FlushSpan_Ok, Hagg.
  - apply (FlushSpan_Err _ _ e), Hagg.
Qed.

(** On a well-formed cache a ruling whose value could be looked up
    moves the span of its series as [transition] says, sends what it
    says, and leaves configuration, statistic and last date alone. *)
Lemma Connect_step_transition f r x :
  cache_wf f ->
  getRulingValue f r = Some x ->
  exists o' out f',
    transition f (spans (cache f) !! Window.Series (ruling.Window r)) r
      = Some (o', out) /\
    Connect_step f r = Some (f', out) /\
    spans (cache f') !! Window.Series (ruling.Window r) = o' /\
    config f' = config f /\ aggregator f' = aggregator f /\
    lastDate f' = lastDate f /\
    Forall (fun s => span.Series s = Window.Series (ruling.Window r)) out.
Proof.
  unfold cache_wf. intros Hwf Hx. unfold transition, Connect_step.
  change (getRulingValue (set_nows _ f) r) with (getRulingValue f r).
  rewrite Hx. destruct x as [v|e]; simpl.
  2:{ eexists _, _, _. repeat split; try reflexivity. constructor. }
  destruct (spans (cache f) !! Window.Series (ruling.Window r))
    as [s|] eqn:Hs.
  - destruct (Hwf _ _ Hs) as [Hk Hnil]. rewrite <- Hk.
    destruct (ruling.Anomalous r).
    + destruct (span.Values s) as [|first rest] eqn:Hvals; [congruence|].
      destruct (sameSign first v).
      * eexists _, _, _. repeat split; try reflexivity; [|constructor].
        simpl. rewrite lookup_insert_eq. unfold merged. simpl.
        rewrite Hvals. reflexivity.
      * rewrite FlushSpan_sent.
        eexists _, _, _. repeat split; try reflexivity.
        -- simpl. apply lookup_insert_eq.
        -- unfold sent. simpl. destruct (aggregator f (span.Values s));
             repeat constructor.
    + change (SpanExpired (set_nows _ f) s) with (SpanExpired f s).
      destruct (SpanExpired f s _).
      * rewrite FlushSpan_sent.
        eexists _, _, _. repeat split; try reflexivity.
        -- simpl. apply lookup_delete_eq.
        -- unfold sent. simpl. destruct (aggregator f (span.Values s));
             repeat constructor.
      * eexists _, _, _. repeat split; try reflexivity; [|constructor].
        simpl. apply lookup_insert_eq.
  - destruct (ruling.Anomalous r);
      eexists _, _, _; repeat split; try reflexivity; try constructor.
    + simpl. apply lookup_insert_eq.
    + simpl. exact Hs.
Qed.

Lemma transition_agree k f g o r :
  agree k f g -> transition f o r = transition g o r.
Proof.
  intros (Hc & Ha & Hl & _).
  unfold transition, getRulingValue, SpanExpired, sent.
  rewrite Hc, Ha, Hl. reflexivity.
Qed.

(** What [Connect] does for series [k] is what it does on the rulings of
    series [k] alone: the spans of series [k] it sends, in order, and the
    span of series [k] it is left with are the same.  (The configured
    name is that of a float field or of no field: with the name of a field
    of another kind the first ruling, of whatever series, ends the run.) *)
Lemma Connect_series_independent k rs :
  forall f g,
  cache_wf f -> cache_wf g -> agree k f g ->
  ruling.notFloat (ValueField (config f)) = false ->
  exists f' g' out,
    Connect f rs = Some (f', out) /\
    Connect g (filter (fun r => ofSeries k r = true) rs)
      = Some (g', filter (fun s => span.Series s = k) out) /\
    agree k f' g'.
Proof.
  induction rs as [|r rs IH]; intros f g Hf Hg Hfg Hname.
  - exists f, g, []. auto.
  - assert (Hnameg : ruling.notFloat (ValueField (config g)) = false)
      by (rewrite <- (proj1 Hfg); exact Hname).
    destruct (Connect_step_wf f r Hf Hname)
      as (f1 & out1 & Hstep & Hf1 & Hcf1).
    assert (Hname1 : ruling.notFloat (ValueField (config f1)) = false)
      by (rewrite Hcf1; exact Hname).
    destruct (getRulingValue_returns f r Hname) as [x Hx].
    destruct (getRulingValue_returns g r Hnameg) as [y Hy].
    rewrite (Connect_cons _ _ _ _ _ Hstep).
    destruct (decide (Window.Series (ruling.Window r) = k)) as [Hk|Hk].
    + rewrite filter_cons_True
        by (unfold ofSeries; apply bool_decide_eq_true_2, Hk).
      destruct (Connect_step_transition f r x Hf Hx)
        as (o & out & f1' & Htr & Hstep' & Ho & Hc & Ha & Hl & Hout).
      rewrite Hstep in Hstep'. injection Hstep' as <- <-.
      destruct (Connect_step_transition g r y Hg Hy)
        as (o2 & out2 & g1 & Htr2 & Hstepg & Ho2 & Hc2 & Ha2 & Hl2 & _).
      rewrite Hk in *.
      rewrite <- (proj2 (proj2 (proj2 Hfg))),
              <- (transition_agree k f g _ r Hfg), Htr in Htr2.
      injection Htr2 as <- <-.
      assert (Hg1 : cache_wf g1).
      { exact (proj1 (Connect_step_keeps_wf g r g1 _ Hg Hstepg)). }
      assert (Hfg1 : agree k f1 g1).
      { destruct Hfg as (Hc0 & Ha0 & Hl0 & _). unfold agree.
        rewrite Hc, Ha, Hl, Hc2, Ha2, Hl2, Ho, Ho2. auto. }
      destruct (IH f1 g1 Hf1 Hg1 Hfg1 Hname1)
        as (f' & g' & out & -> & Hrun & Hfg').
      rewrite (Connect_cons _ _ _ _ _ Hstepg), Hrun.
      exists f', g', (out1 ++ out). split; [reflexivity|]. split; [|exact Hfg'].
      rewrite filter_app, (filter_Forall_id _ out1 Hout). reflexivity.
    + rewrite filter_cons_False
        by (unfold ofSeries; rewrite bool_decide_eq_true; exact Hk).
      destruct (Connect_step_other_series f r k f1 out1 Hf Hk Hstep)
        as [Hsame Hout].
      destruct (Connect_step_transition f r x Hf Hx)
        as (o & out & f1' & _ & Hstep' & _ & Hc & Ha & Hl & _).
      rewrite Hstep in Hstep'. injection Hstep' as <- <-.
      assert (Hfg1 : agree k f1 g).
      { destruct Hfg as (Hc0 & Ha0 & Hl0 & Hs0). unfold agree.
        rewrite Hc, Ha, Hl, Hsame. auto. }
      destruct (IH f1 g Hf1 Hg Hfg1 Hname1)
        as (f' & g' & out & -> & Hrun & Hfg').
      exists f', g', (out1 ++ out). split; [reflexivity|]. split; [|exact Hfg'].
      rewrite filter_app, (filter_Forall_nil _ out1 Hout), Hrun.
      reflexivity.
Qed.

(** *** Configuration *)

Section Configuration.
Context (stats_Sum stats_Mean stats_Median stats_Midhinge stats_Trimean
         : statistic).
Context (parseRFC3339 : string -> result Time).

Local Abbreviation getAggregator :=
  (gatherFilter.getAggregator
     stats_Sum stats_Mean stats_Median stats_Midhinge stats_Trimean).
Local Abbreviation aggFunctions :=
  (gatherFilter.aggFunctions
     stats_Sum stats_Mean stats_Median stats_Midhinge stats_Trimean).
Local Abbreviation Init :=
  (gatherFilter.Init (Payload := Payload)
     stats_Sum stats_Mean stats_Median stats_Midhinge stats_Trimean
     parseRFC3339).

Lemma aggFunctions_unknown name :
  name ∉ ["Sum"; "Mean"; "Median"; "Midhinge"; "Trimean"]%string ->
  aggFunctions !! name = None.
Proof.
  intros Hnot. unfold gatherFilter.aggFunctions.
  rewrite !lookup_insert_ne, lookup_empty; [reflexivity|..];
    intros <-; apply Hnot; repeat constructor.
Qed.

Lemma getAggregator_selects_unknown cfg :
  Statistic cfg ∉ ["Sum"; "Mean"; "Median"; "Midhinge"; "Trimean"]%string ->
  getAggregator cfg = stats_Sum.
Proof.
  intros Hnot. unfold gatherFilter.getAggregator.
  rewrite (aggFunctions_unknown _ Hnot).
  destruct (String.eqb _ _); reflexivity.
Qed.

(** C8 (amended). The names are the keys of the table, Sum, Mean,
    Median, Midhinge and Trimean, matched as written: such a name selects
    the statistic of that name; the empty name and every name outside the
    table, the lower-case spellings among them, select Sum. *)
Theorem getAggregator_selects cfg :
  (Statistic cfg = "Sum"%string -> getAggregator cfg = stats_Sum) /\
  (Statistic cfg = "Mean"%string -> getAggregator cfg = stats_Mean) /\
  (Statistic cfg = "Median"%string -> getAggregator cfg = stats_Median) /\
  (Statistic cfg = "Midhinge"%string -> getAggregator cfg = stats_Midhinge) /\
  (Statistic cfg = "Trimean"%string -> getAggregator cfg = stats_Trimean) /\
  (Statistic cfg = ""%string -> getAggregator cfg = stats_Sum) /\
  (Statistic cfg ∉ ["Sum"; "Mean"; "Median"; "Midhinge"; "Trimean"]%string ->
   getAggregator cfg = stats_Sum) /\
  (Statistic cfg ∈ ["sum"; "mean"; "median"; "midhinge"; "trimean"]%string ->
   getAggregator cfg = stats_Sum).
Proof.
  repeat split;
    try (intros Heq; unfold gatherFilter.getAggregator; rewrite Heq;
         reflexivity).
  - apply getAggregator_selects_unknown.
  - intros Hin.
    repeat (apply elem_of_cons in Hin as [Hin|Hin];
            [unfold gatherFilter.getAggregator; rewrite Hin; reflexivity|]).
    inversion Hin.
Qed.

(** The names are matched as written: the lower-case spelling of a
    statistic is not in the table. *)
Lemma getAggregator_case_sensitive cfg :
  Statistic cfg = "mean"%string -> getAggregator cfg = stats_Sum.
Proof.
  intros H. apply getAggregator_selects_unknown. rewrite H.
  intros Hin. repeat (apply elem_of_cons in Hin as [Hin|Hin]; [discriminate|]).
  inversion Hin.
Qed.

(** C9. With the disabled flag set, [Init] stores the configuration and
    returns no error, whatever the span width and the last date are:
    neither is looked at. *)
Theorem Init_disabled (now : Time) f cfg :
  Disabled cfg = true ->
  Init now f cfg =
  ({| config := cfg; aggregator := aggregator f;
      cache := cache f; lastDate := lastDate f |}, None).
Proof.
  intros H. unfold gatherFilter.Init. rewrite H. reflexivity.
Qed.

(** On the enabled path [Init] ends with an empty, hence well-formed,
    cache. *)
Lemma Init_enabled_wf (now : Time) f cfg f' :
  Disabled cfg = false ->
  Init now f cfg = (f', None) ->
  cache_wf f' /\ 0 < SpanWidth cfg /\ aggregator f' = getAggregator cfg.
Proof.
  intros Hd. unfold gatherFilter.Init. rewrite Hd.
  destruct (Z.leb_spec (SpanWidth cfg) 0); [discriminate|].
  destruct (if String.eqb (LastDate cfg) "today" then _ else _);
    intros [= <-].
  split; [apply spans_wf_empty | split; [assumption | reflexivity]].
Qed.

End Configuration.

End gatherFilter_facts.

(** ** The bin filter *)

Section BinFilter_facts.
Context {Payload : Type}.
Implicit Types (f : BinFilter.t) (s : AnomalousSpan Payload) (b : Bin).

Import BinFilter.

(** *** The bins of a span *)

(** A width that [Init] accepts and that fits a Duration is positive as
    a Duration. *)
Lemma binWidth_pos f :
  0 < BinWidth (config f) <= 9223372036 ->
  binWidth f = BinWidth (config f) * Second /\ 0 < binWidth f.
Proof.
  intros H. unfold binWidth. rewrite seconds_small by lia.
  unfold Second. lia.
Qed.

(** With a positive width the loop ends after the [n] bin starts that
    do not exceed the span's end; [n + 1] tests of the condition are
    enough. *)
Lemma spanToBins_loop_spec (d spanEnd : Z) (n : nat) :
  0 < d ->
  forall (now : Time) (acc : list Time) (fuel : nat),
  (forall i : nat, (i < n)%nat <-> now + Z.of_nat i * d <= spanEnd) ->
  (n < fuel)%nat ->
  spanToBins_loop fuel d spanEnd now acc =
  Some (acc ++ ((fun i : nat => now + Z.of_nat i * d) <$> seq 0 n)).
Proof.
  intros Hd. induction n as [|n IH]; intros now acc fuel Hn Hfuel.
  - destruct fuel as [|fuel]; [lia|]. simpl.
    assert (After now spanEnd = true) as ->.
    { apply After_spec. specialize (Hn 0%nat). simpl in Hn. lia. }
    simpl. rewrite app_nil_r. reflexivity.
  - destruct fuel as [|fuel]; [lia|]. simpl.
    assert (After now spanEnd = false) as ->.
    { apply After_false. specialize (Hn 0%nat). simpl in Hn. lia. }
    simpl. rewrite (IH (Add now d) (acc ++ [now]) fuel).
    + rewrite <- app_assoc. simpl. f_equal. f_equal. f_equal; [lia|].
      change (list_fmap nat Z ?g ?l) with (g <$> l).
      rewrite <- fmap_S_seq, <- list_fmap_compose.
      apply list_fmap_ext. intros _ i _. unfold Add. simpl. lia.
    + intros i. specialize (Hn (S i)). unfold Add. lia.
    + lia.
Qed.

(** How many bin starts, counted from [t0] in steps of [d], do not
    exceed [e]. *)
Lemma bin_count_exists (d t0 e : Z) :
  0 < d ->
  exists n : nat, forall i : nat, (i < n)%nat <-> t0 + Z.of_nat i * d <= e.
Proof.
  intros Hd. destruct (Z.leb_spec t0 e) as [Hle|Hgt].
  - exists (Z.to_nat ((e - t0) / d + 1)). intros i.
    pose proof (Z.div_pos (e - t0) d ltac:(lia) Hd).
    pose proof (Z.mul_div_le (e - t0) d Hd).
    pose proof (Z.mul_succ_div_gt (e - t0) d Hd).
    split; intros H'; nia.
  - exists 0%nat. intros i. split; [lia|]. nia.
Qed.

Lemma bin_starts_NoDup (d t0 : Z) (n : nat) :
  0 < d -> NoDup ((fun i : nat => t0 + Z.of_nat i * d) <$> seq 0 n).
Proof.
  intros Hd. apply NoDup_fmap_2; [|apply NoDup_seq].
  intros i j Hij. nia.
Qed.

Lemma bin_starts_elem (d t0 e : Z) (n : nat) (b : Z) :
  0 < d ->
  (forall i : nat, (i < n)%nat <-> t0 + Z.of_nat i * d <= e) ->
  b ∈ (fun i : nat => t0 + Z.of_nat i * d) <$> seq 0 n <->
  exists i : Z, 0 <= i /\ b = t0 + i * d /\ b <= e.
Proof.
  intros Hd Hn. rewrite list_elem_of_fmap. split.
  - intros (i & -> & Hi). apply elem_of_seq in Hi.
    exists (Z.of_nat i). split; [lia|]. split; [reflexivity|].
    apply Hn. lia.
  - intros (i & Hi & -> & Hle). exists (Z.to_nat i).
    rewrite Z2Nat.id by exact Hi. split; [reflexivity|].
    apply elem_of_seq. split; [lia|]. simpl. apply Hn.
    rewrite Z2Nat.id by exact Hi. exact Hle.
Qed.

(** *** Touches *)

Lemma touch_spec series f (binTime : Time) :
  touch series f binTime =
  ({| bins := <[binTime := snapshot series f binTime]> (bins f);
      config := config f |}, snapshot series f binTime).
Proof.
  unfold touch, snapshot, current.
  destruct (bins f !! binTime); reflexivity.
Qed.

Lemma snapshot_frame series f f1 (binTime : Time) :
  config f1 = config f ->
  bins f1 !! binTime = bins f !! binTime ->
  snapshot series f1 binTime = snapshot series f binTime.
Proof.
  intros Hc Hb. unfold snapshot, current, binWidth. rewrite Hc, Hb.
  reflexivity.
Qed.

(** Touching distinct bins: each snapshot is taken from the bin as it
    was before the span arrived, and only the touched bins change. *)
Lemma touches_spec series (binTimes : list Time) :
  NoDup binTimes ->
  forall f f' out,
  touches series f binTimes = (f', out) ->
  out = snapshot series f <$> binTimes /\
  config f' = config f /\
  forall binTime,
    bins f' !! binTime =
    if decide (binTime ∈ binTimes)
    then Some (snapshot series f binTime)
    else bins f !! binTime.
Proof.
  induction 1 as [|t0 rest Hnotin Hnodup IH]; intros f f' out.
  - intros [= <- <-]. split; [reflexivity|]. split; [reflexivity|].
    intros binTime. rewrite decide_False; [reflexivity|]. apply not_elem_of_nil.
  - change (touches series f (t0 :: rest))
      with (let '(f1, b) := touch series f t0 in
            let '(f2, out) := touches series f1 rest in (f2, b :: out)).
    rewrite touch_spec.
    destruct (touches series _ rest) as [f2 out2] eqn:Hrest.
    intros [= <- <-].
    destruct (IH _ _ _ Hrest) as (-> & Hcfg & Hbins). simpl in Hcfg.
    split; [|split; [exact Hcfg|]].
    + simpl. f_equal. apply list_fmap_ext. intros i b Hb.
      apply snapshot_frame; [reflexivity|]. simpl.
      apply lookup_insert_ne. intros <-. apply Hnotin.
      eapply list_elem_of_lookup_2, Hb.
    + intros binTime. rewrite Hbins.
      destruct (decide (binTime ∈ rest)) as [Hin|Hnin].
      * rewrite decide_True by (right; exact Hin). f_equal.
        apply snapshot_frame; [reflexivity|]. simpl.
        apply lookup_insert_ne. intros <-. contradiction.
      * simpl. destruct (decide (t0 = binTime)) as [<-|Hne].
        -- rewrite decide_True by left. apply lookup_insert_eq.
        -- rewrite lookup_insert_ne by exact Hne.
           rewrite decide_False; [reflexivity|].
           intros Hin. apply elem_of_cons in Hin as [->|Hin]; contradiction.
Qed.

(** C4. For a positive bin width, a finished span touches the bins that
    start at the truncation of the span's start and at every further
    multiple of the width that does not exceed the span's end, in that
    order and nothing else; each touch raises the bin's count by one, adds
    the span's series at the end of its entries and sends the bin as it
    then is.  The loop that lists the bins ends: one more test than there
    are bins suffices. *)
Theorem BinFilter_touches f s :
  0 < binWidth f ->
  let d := binWidth f in
  let t0 := Truncate (span.Start s) d in
  exists (n : nat) (f' : BinFilter.t),
    let starts := (fun i : nat => t0 + Z.of_nat i * d) <$> seq 0 n in
    (forall i : nat, (i < n)%nat <-> t0 + Z.of_nat i * d <= span.End_ s) /\
    (forall b : Time,
       b ∈ starts <->
       exists i : Z, 0 <= i /\ b = t0 + i * d /\ b <= span.End_ s) /\
    (forall fuel, (n < fuel)%nat ->
       spanToBins fuel f s = Some starts /\
       Connect_span fuel f s =
         Some (f', snapshot (span.Series s) f <$> starts)) /\
    config f' = config f /\
    (forall b : Time,
       bins f' !! b =
       if decide (b ∈ starts)
       then Some {| Bin.Start := Bin.Start (current f b);
                    Bin.End_ := Bin.End_ (current f b);
                    Bin.Count := Bin.Count (current f b) + 1;
                    Bin.Entries := Bin.Entries (current f b) ++ [span.Series s] |}
       else bins f !! b).
Proof.
  intros Hd d t0.
  destruct (bin_count_exists d t0 (span.End_ s) Hd) as [n Hn].
  set (starts := (fun i : nat => t0 + Z.of_nat i * d) <$> seq 0 n).
  destruct (touches (span.Series s) f starts) as [f' out] eqn:Ht.
  destruct (touches_spec (span.Series s) starts
              (bin_starts_NoDup d t0 n Hd) f f' out Ht)
    as (-> & Hcfg & Hbins).
  exists n, f'. split; [exact Hn|]. split; [|split; [|split]].
  - intros b. apply bin_starts_elem; assumption.
  - intros fuel Hfuel.
    assert (Hloop : spanToBins fuel f s = Some starts).
    { unfold spanToBins. fold d. fold t0.
      rewrite (spanToBins_loop_spec d (span.End_ s) n Hd t0 [] fuel Hn Hfuel).
      reflexivity. }
    split; [exact Hloop|].
    unfold Connect_span. rewrite Hloop, Ht. reflexivity.
  - exact Hcfg.
  - exact Hbins.
Qed.

(** *** Counts and entries *)

Lemma Init_bins_ok cfg f : Init cfg = Ok f -> bins_ok f.
Proof.
  unfold Init. destruct (BinWidth cfg <=? 0); [discriminate|].
  intros [= <-] binTime b. simpl. rewrite lookup_empty. discriminate.
Qed.

Lemma current_ok f (binTime : Time) :
  bins_ok f ->
  0 <= Bin.Count (current f binTime) /\
  Bin.Count (current f binTime)
  = Z.of_nat (length (Bin.Entries (current f binTime))).
Proof.
  intros Hok. unfold current.
  destruct (bins f !! binTime) as [b|] eqn:Hb; simpl.
  - destruct (Hok _ _ Hb). lia.
  - lia.
Qed.

Lemma snapshot_ok series f (binTime : Time) :
  bins_ok f -> bin_ok (snapshot series f binTime).
Proof.
  intros Hok. destruct (current_ok f binTime Hok) as [Hge Hlen].
  unfold bin_ok, snapshot. simpl. rewrite length_app. simpl. lia.
Qed.

Lemma touch_ok series f (binTime : Time) :
  bins_ok f -> bins_ok (fst (touch series f binTime)).
Proof.
  intros Hok. rewrite touch_spec. simpl. intros t b. simpl.
  rewrite lookup_insert. case_decide.
  - intros [= <-]. apply snapshot_ok, Hok.
  - apply Hok.
Qed.

Lemma touches_ok series (binTimes : list Time) f f' out :
  bins_ok f ->
  touches series f binTimes = (f', out) ->
  Forall bin_ok out /\ bins_ok f'.
Proof.
  revert f f' out. induction binTimes as [|t0 rest IH]; intros f f' out Hok.
  - intros [= <- <-]. split; [constructor|exact Hok].
  - change (touches series f (t0 :: rest))
      with (let '(f1, b) := touch series f t0 in
            let '(f2, out) := touches series f1 rest in (f2, b :: out)).
    pose proof (touch_ok series f t0 Hok) as Hok1.
    rewrite touch_spec in *. simpl in Hok1.
    destruct (touches series _ rest) as [f2 out2] eqn:Hrest.
    intros [= <- <-].
    destruct (IH _ _ _ Hok1 Hrest) as [Hout Hok2].
    split; [constructor; [apply snapshot_ok, Hok|exact Hout]|exact Hok2].
Qed.

Lemma Connect_ok fuel (ss : list (AnomalousSpan Payload)) f f' out :
  bins_ok f ->
  Connect fuel f ss = Some (f', out) ->
  Forall bin_ok out /\ bins_ok f'.
Proof.
  revert f f' out. induction ss as [|s ss IH]; intros f f' out Hok; simpl.
  - intros [= <- <-]. split; [constructor|exact Hok].
  - unfold Connect_span.
    destruct (spanToBins fuel f s) as [binTimes|]; [|discriminate].
    destruct (touches (span.Series s) f binTimes) as [f1 out1] eqn:Ht.
    destruct (touches_ok _ _ _ _ _ Hok Ht) as [Hout1 Hok1].
    destruct (Connect fuel f1 ss) as [[f2 out2]|] eqn:Hrest; [|discriminate].
    intros [= <- <-].
    destruct (IH _ _ _ Hok1 Hrest) as [Hout2 Hok2].
    split; [apply Forall_app; split; assumption|exact Hok2].
Qed.

(** C10. Whatever spans the filter has received since [Init], every
    snapshot it has sent has a count of at least one that equals the
    number of its entries, and so has every stored bin; a further touch
    raises the count by one, appends exactly the touching series, and
    keeps all of that true. *)
Theorem BinFilter_count_is_entries cfg f0 fuel
  (ss : list (AnomalousSpan Payload)) f out :
  Init cfg = Ok f0 ->
  Connect fuel f0 ss = Some (f, out) ->
  Forall bin_ok out /\
  bins_ok f /\
  forall series (binTime : Time),
    let b := snd (touch series f binTime) in
    Bin.Count b = Bin.Count (current f binTime) + 1 /\
    Bin.Entries b = Bin.Entries (current f binTime) ++ [series] /\
    bin_ok b /\
    bins_ok (fst (touch series f binTime)).
Proof.
  intros Hinit Hrun.
  destruct (Connect_ok fuel ss f0 f out (Init_bins_ok cfg f0 Hinit) Hrun)
    as [Hout Hok].
  split; [exact Hout|]. split; [exact Hok|].
  intros series binTime b.
  split; [|split; [|split]].
  - unfold b. rewrite touch_spec. reflexivity.
  - unfold b. rewrite touch_spec. reflexivity.
  - unfold b. rewrite touch_spec. apply snapshot_ok, Hok.
  - apply touch_ok, Hok.
Qed.

End BinFilter_facts.

(** ** The properties at work on sample data *)

(** C3 at work: with a span width of 60 seconds, a span that ended at
    second 90 is expired at second 151, hence at second 152. *)
Lemma SpanExpired_monotonic_witness :
  gatherFilter.SpanExpired (Sample.gatherer ∅)
    (Sample.open_span 0 90 [1%float]) (152 * Second) = true.
Proof.
  apply (SpanExpired_monotonic (Sample.gatherer ∅)
           (Sample.open_span 0 90 [1%float]) (151 * Second) (152 * Second)).
  - reflexivity.
  - reflexivity.
Defined.

(** C1 at work: magnitudes 3 and 1.5, then -2 and -0.5, then 4, on
    consecutive half-minute windows of series A. *)
Lemma Connect_sign_runs_witness :
  snd <$> gatherFilter.Connect (Sample.gatherer ∅)
    [Sample.rule 0 30 true 3%float; Sample.rule 30 60 true 1.5%float;
     Sample.rule 60 90 true (-2)%float; Sample.rule 90 120 true (-0.5)%float;
     Sample.rule 120 150 true 4%float] =
  Some
    [ {| span.Series := "A"; span.Values := [3%float; 1.5%float];
         span.Start := 0; span.End_ := 60 * Second;
         span.Duration := 60 * Second; span.Score := 4.5%float;
         span.Passthrough := tt |};
      {| span.Series := "A"; span.Values := [(-2)%float; (-0.5)%float];
         span.Start := 60 * Second; span.End_ := 120 * Second;
         span.Duration := 60 * Second; span.Score := (-2.5)%float;
         span.Passthrough := tt |} ].
Proof.
  destruct (Connect_sign_runs (Sample.gatherer ∅) "A"%string
              (Sample.rule 0 30 true 3%float) 3%float
              [Sample.rule 30 60 true 1.5%float] [1.5%float]
              (Sample.rule 60 90 true (-2)%float) (-2)%float
              [Sample.rule 90 120 true (-0.5)%float] [(-0.5)%float]
              (Sample.rule 120 150 true 4%float) 4%float
              4.5%float (-2.5)%float)
    as (_ & _ & f3 & H & _).
  - reflexivity.
  - repeat split.
  - repeat constructor.
  - repeat constructor.
  - repeat split.
  - reflexivity.
  - repeat constructor.
  - repeat constructor.
  - repeat split.
  - reflexivity.
  - reflexivity.
  - reflexivity.
  - refine (eq_trans (f_equal (fmap snd) H) _). reflexivity.
Defined.

(** C5 at work: a span of series A ending at second 30, not expired at
    second 60, takes in the magnitude 0.25 of a ruling that is not
    anomalous and still ends at second 30. *)
Lemma Connect_step_absorb_witness :
  (fun '(f, out) =>
     (gatherFilter.spans (gatherFilter.cache f) !! "A"%string, out))
  <$> gatherFilter.Connect_step
        (Sample.gatherer {[ "A"%string := Sample.open_span 0 30 [3%float] ]})
        (Sample.rule 30 60 false 0.25%float) =
  Some (Some (Sample.open_span 0 30 [3%float; 0.25%float]), []).
Proof.
  refine (eq_trans
            (f_equal _
               (Connect_step_absorb
                  (Sample.gatherer
                     {[ "A"%string := Sample.open_span 0 30 [3%float] ]})
                  (Sample.rule 30 60 false 0.25%float)
                  (Sample.open_span 0 30 [3%float]) 0.25%float
                  _ _ _ _)) _); reflexivity.
Defined.

(** C6 at work: the sum fails on a span without magnitudes; flushing it
    sends nothing and empties the cache. *)
Lemma FlushSpan_statistic_failure_witness :
  gatherFilter.FlushSpan
    (Sample.gatherer {[ "A"%string := Sample.open_span 0 30 [] ]})
    "A" (Sample.open_span 0 30 []) =
  (Sample.gatherer ∅, []).
Proof.
  exact (proj1 (FlushSpan_statistic_failure
                  (Sample.gatherer
                     {[ "A"%string := Sample.open_span 0 30 [] ]})
                  (Sample.open_span 0 30 [])
                  "Input must not be empty."%string eq_refl)).
Defined.

(** C7 at work: a ruling whose only field is called score, for a filter
    that reads the field normed. *)
Lemma Connect_step_missing_field_witness :
  let r :=
    {| ruling.Window :=
         {| Window.Start := 30 * Second; Window.End_ := 60 * Second;
            Window.Series := "A"; Window.Value := 1%float;
            Window.Passthrough := tt |};
       ruling.Anomalous := true;
       ruling.floats := {[ "score"%string := 1%float ]} |} in
  let sp : gmap string (span unit) :=
    {[ "A"%string := Sample.open_span 0 30 [3%float] ]} in
  gatherFilter.Connect_step (Sample.gatherer sp) r =
  Some ({| gatherFilter.config := gatherFilter.config (Sample.gatherer sp);
           gatherFilter.aggregator := Sample.sum;
           gatherFilter.cache :=
             {| gatherFilter.spans := sp;
                gatherFilter.nows := {[ "A"%string := 60 * Second ]} |};
           gatherFilter.lastDate := 1000000 * Second |}, []).
Proof.
  intros r sp.
  exact (proj1 (proj2 (Connect_step_missing_field
                         (Sample.gatherer sp) r [] eq_refl))).
Defined.

(** The ruling of the C7 sample does change the filter: the last-seen
    time of series A, unset before, is set by the skipped ruling. *)
Lemma Connect_step_missing_field_changes_state :
  let r :=
    {| ruling.Window :=
         {| Window.Start := 30 * Second; Window.End_ := 60 * Second;
            Window.Series := "A"; Window.Value := 1%float;
            Window.Passthrough := tt |};
       ruling.Anomalous := true;
       ruling.floats := {[ "score"%string := 1%float ]} |} in
  let f := Sample.gatherer {[ "A"%string := Sample.open_span 0 30 [3%float] ]} in
  gatherFilter.getRulingValue f r
    = Some (Err "Ruling did not contain field."%string) /\
  gatherFilter.nows (gatherFilter.cache f) !! "A"%string = None /\
  (fun '(f', _) => gatherFilter.nows (gatherFilter.cache f') !! "A"%string)
    <$> gatherFilter.Connect_step f r = Some (Some (60 * Second)) /\
  fst <$> gatherFilter.Connect_step f r <> Some f.
Proof.
  intros r f. repeat split.
  intros H.
  apply (f_equal (fmap (fun f' : gatherFilter.t unit =>
                          gatherFilter.nows (gatherFilter.cache f')
                            !! "A"%string))) in H.
  vm_compute in H. discriminate H.
Qed.

(** C8 at work: with the sum and the mean in the table, the name Mean
    selects the mean, the lower-case spelling and the empty name select
    the sum; the mean of 1, 2, 3 is 2. *)
Lemma getAggregator_selects_witness :
  let select name :=
    gatherFilter.getAggregator Sample.sum Sample.mean Sample.sum Sample.sum
      Sample.sum
      {| gatherFilter.Disabled := false; gatherFilter.SpanWidth := 60;
         gatherFilter.Statistic := name;
         gatherFilter.ValueField := "normed";
         gatherFilter.LastDate := "today" |} in
  select "Mean"%string = Sample.mean /\
  select "mean"%string = Sample.sum /\
  select ""%string = Sample.sum /\
  select "Mean"%string [1%float; 2%float; 3%float] = Ok 2%float.
Proof.
  intros select.
  destruct (getAggregator_selects Sample.sum Sample.mean Sample.sum
              Sample.sum Sample.sum
              {| gatherFilter.Disabled := false; gatherFilter.SpanWidth := 60;
                 gatherFilter.Statistic := "Mean";
                 gatherFilter.ValueField := "normed";
                 gatherFilter.LastDate := "today" |})
    as (_ & HMean & _).
  split; [exact (HMean eq_refl)|].
  split; [reflexivity|]. split; [reflexivity|].
  change (select "Mean"%string) with
    (gatherFilter.getAggregator Sample.sum Sample.mean Sample.sum Sample.sum
       Sample.sum
       {| gatherFilter.Disabled := false; gatherFilter.SpanWidth := 60;
          gatherFilter.Statistic := "Mean";
          gatherFilter.ValueField := "normed";
          gatherFilter.LastDate := "today" |}).
  rewrite (HMean eq_refl). reflexivity.
Defined.

(** The names as the claim spells them are not in the table.  With the
    sum under Sum and the mean under the four other keys, each of mean,
    median, midhinge and trimean selects the sum: on 1, 2, 3 it gives 6,
    where the statistic filed under the capitalised name gives 2. *)
Lemma getAggregator_lower_case_selects_Sum :
  let select name :=
    gatherFilter.getAggregator Sample.sum Sample.mean Sample.mean
      Sample.mean Sample.mean
      {| gatherFilter.Disabled := false; gatherFilter.SpanWidth := 60;
         gatherFilter.Statistic := name;
         gatherFilter.ValueField := "normed";
         gatherFilter.LastDate := "today" |} in
  let data := [1%float; 2%float; 3%float] in
  Forall (fun name => select name data = Ok 6%float)
    ["mean"; "median"; "midhinge"; "trimean"]%string /\
  Forall (fun name => select name data = Ok 2%float)
    ["Mean"; "Median"; "Midhinge"; "Trimean"]%string /\
  select "mean"%string <> Sample.mean.
Proof.
  intros select data. split; [repeat constructor|].
  split; [repeat constructor|].
  intros H.
  apply (f_equal (fun g : statistic =>
                    match g data with
                    | Ok x => PrimFloat.eqb x 2%float
                    | Err _ => false
                    end)) in H.
  vm_compute in H. discriminate H.
Qed.

(** C9 at work: a disabled configuration with a negative span width
    and a last date that does not parse. *)
Lemma Init_disabled_witness :
  snd (gatherFilter.Init Sample.sum Sample.sum Sample.sum Sample.sum
         Sample.sum (fun _ => Err "cannot parse"%string) 0
         (Sample.gatherer ∅)
         {| gatherFilter.Disabled := true;
            gatherFilter.SpanWidth := -5;
            gatherFilter.Statistic := "";
            gatherFilter.ValueField := "normed";
            gatherFilter.LastDate := "never" |}) = None.
Proof.
  rewrite (Init_disabled Sample.sum Sample.sum Sample.sum Sample.sum
             Sample.sum (fun _ => Err "cannot parse"%string) 0
             (Sample.gatherer ∅)); reflexivity.
Defined.

(** C4 at work: a span of series A from 00:00:00 to 00:02:30 and bins
    of 60 seconds: three touches, for the bins that start at 00:00:00,
    00:01:00 and 00:02:00. *)
Lemma BinFilter_touches_witness :
  let s : span unit :=
    {| span.Series := "A"; span.Values := [3%float];
       span.Start := Sample.midnight;
       span.End_ := Sample.midnight + 150 * Second;
       span.Duration := 150 * Second; span.Score := 3%float;
       span.Passthrough := tt |} in
  let bin (from : Z) :=
    {| Bin.Start := Sample.midnight + from * Second;
       Bin.End_ := Sample.midnight + (from + 60) * Second;
       Bin.Count := 1; Bin.Entries := ["A"%string] |} in
  snd <$> BinFilter.Connect_span 4 Sample.binner s =
  Some [bin 0; bin 60; bin 120].
Proof.
  intros s bin.
  destruct (BinFilter_touches Sample.binner s) as (n & f' & Hn & _ & Hrun & _).
  - reflexivity.
  - assert (H2 : (2 < n)%nat).
    { apply Hn. apply Z.leb_le. vm_compute. reflexivity. }
    assert (H3 : ~ (3 < n)%nat).
    { intros H. apply Hn in H. apply Z.leb_le in H. vm_compute in H.
      discriminate H. }
    assert (n = 3%nat) as -> by lia.
    destruct (Hrun 4%nat) as [_ H]; [lia|].
    refine (eq_trans (f_equal (fmap snd) H) _). vm_compute. reflexivity.
Defined.

(** C10 at work: two spans of series A and B over the same three
    minutes leave five snapshots, each with as many entries as its
    count. *)
Lemma BinFilter_count_is_entries_witness :
  let s series (from to : Z) : span unit :=
    {| span.Series := series; span.Values := [1%float];
       span.Start := Sample.midnight + from * Second;
       span.End_ := Sample.midnight + to * Second;
       span.Duration := (to - from) * Second; span.Score := 1%float;
       span.Passthrough := tt |} in
  let run : option (BinFilter.t * list Bin) :=
    BinFilter.Connect 4 Sample.binner
      [s "A"%string 0 150; s "B"%string 70 130] in
  (fun r : BinFilter.t * list Bin => Bin.Count <$> snd r) <$> run
    = Some [1; 1; 1; 2; 2] /\
  Forall BinFilter.bin_ok (default [] (snd <$> run)).
Proof.
  intros s run. split; [vm_compute; reflexivity|].
  destruct run as [[f out]|] eqn:H.
  - exact (proj1 (BinFilter_count_is_entries
                    {| BinFilter.BinWidth := 60 |} Sample.binner 4%nat
                    [s "A"%string 0 150; s "B"%string 70 130] f out
                    eq_refl H)).
  - constructor.
Defined.

(** * Further properties *)

(** ** The sweeps of the gather filter *)

Section gatherFilter_sweeps.
Context {Payload : Type}.
Implicit Types (f : gatherFilter.t Payload) (s : span Payload)
  (k : string) (order : list string).

Import gatherFilter.

Lemma flat_map_agree {A B} (g h : A -> list B) (l : list A) :
  (forall x, x ∈ l -> g x = h x) -> flat_map g l = flat_map h l.
Proof.
  induction l as [|x l IH]; intros Hgh; [reflexivity|]. simpl.
  rewrite (Hgh x) by left. rewrite IH; [reflexivity|].
  intros y Hy. apply Hgh. right. exact Hy.
Qed.

Lemma FlushExpiredSpans_fold order now :
  NoDup order ->
  forall f out0 f' out,
  cache_wf f ->
  fold_left (FlushExpiredSpans_visit now) order (f, out0) = (f', out) ->
  cache_wf f' /\
  config f' = config f /\ aggregator f' = aggregator f /\
  lastDate f' = lastDate f /\
  out = out0 ++ flat_map (fun k => swept f now (spans (cache f) !! k)) order /\
  (forall k,
     spans (cache f') !! k =
     if decide (k ∈ order) then kept f now (spans (cache f) !! k)
     else spans (cache f) !! k) /\
  (forall k,
     nows (cache f') !! k =
     if decide (k ∈ order)
     then match kept f now (spans (cache f) !! k), spans (cache f) !! k with
          | None, Some _ => None
          | _, _ => nows (cache f) !! k
          end
     else nows (cache f) !! k).
Proof.
  induction 1 as [|k0 order Hnotin Hnodup IH]; intros f out0 f' out Hwf.
  - cbn [fold_left flat_map]. intros [= <- <-]. rewrite app_nil_r.
    split; [exact Hwf|]. do 4 (split; [reflexivity|]).
    split; intros k; rewrite decide_False by apply not_elem_of_nil;
      reflexivity.
  - cbn [fold_left].
    assert (Hstep : exists f1,
      FlushExpiredSpans_visit now (f, out0) k0
        = (f1, out0 ++ swept f now (spans (cache f) !! k0)) /\
      cache_wf f1 /\
      config f1 = config f /\ aggregator f1 = aggregator f /\
      lastDate f1 = lastDate f /\
      spans (cache f1) = match kept f now (spans (cache f) !! k0),
                               spans (cache f) !! k0 with
                         | None, Some _ => delete k0 (spans (cache f))
                         | _, _ => spans (cache f)
                         end /\
      nows (cache f1) = match kept f now (spans (cache f) !! k0),
                              spans (cache f) !! k0 with
                        | None, Some _ => delete k0 (nows (cache f))
                        | _, _ => nows (cache f)
                        end).
    { unfold FlushExpiredSpans_visit, kept, swept.
      destruct (spans (cache f) !! k0) as [s|] eqn:Hs.
      - destruct (Hwf _ _ Hs) as [Hk _].
        destruct (SpanExpired f s now).
        + rewrite <- Hk, FlushSpan_sent. eexists. split; [reflexivity|].
          split; [apply spans_wf_delete, Hwf|]. repeat split.
        + exists f. rewrite app_nil_r. split; [reflexivity|].
          split; [exact Hwf|]. repeat split.
      - exists f. rewrite app_nil_r. split; [reflexivity|].
        split; [exact Hwf|]. repeat split. }
    destruct Hstep as (f1 & -> & Hwf1 & Hc & Ha & Hl & Hsp & Hnw).
    intros Hfold.
    destruct (IH f1 _ f' out Hwf1 Hfold)
      as (Hwf' & Hc' & Ha' & Hl' & -> & Hsp' & Hnw').
    assert (Hsame : forall k, k ∈ order ->
              spans (cache f1) !! k = spans (cache f) !! k /\
              nows (cache f1) !! k = nows (cache f) !! k).
    { intros k Hin. assert (k0 <> k) by (intros ->; contradiction).
      rewrite Hsp, Hnw.
      destruct (kept f now (spans (cache f) !! k0)),
               (spans (cache f) !! k0);
        rewrite ?lookup_delete_ne by assumption; auto. }
    assert (Hkept : forall o, kept f1 now o = kept f now o).
    { intros [s|]; simpl; [|reflexivity].
      unfold SpanExpired. rewrite Hc, Hl. reflexivity. }
    assert (Hswept : forall o, swept f1 now o = swept f now o).
    { intros [s|]; simpl; [|reflexivity].
      unfold SpanExpired, sent. rewrite Hc, Hl, Ha. reflexivity. }
    split; [exact Hwf'|]. split; [congruence|]. split; [congruence|].
    split; [congruence|]. split; [|split].
    + simpl. rewrite <- app_assoc. do 2 f_equal.
      apply flat_map_agree. intros k Hin.
      rewrite Hswept, (proj1 (Hsame k Hin)). reflexivity.
    + intros k. rewrite Hsp'.
      destruct (decide (k ∈ order)) as [Hin|Hnin].
      * rewrite decide_True by (right; exact Hin).
        rewrite Hkept, (proj1 (Hsame k Hin)). reflexivity.
      * destruct (decide (k = k0)) as [->|Hne].
        -- rewrite decide_True by left. rewrite Hsp. unfold kept.
           destruct (spans (cache f) !! k0) as [s|] eqn:Hs; [|exact Hs].
           destruct (SpanExpired f s now); [apply lookup_delete_eq|exact Hs].
        -- rewrite decide_False
             by (intros Hin; apply elem_of_cons in Hin as [?|?]; contradiction).
           rewrite Hsp.
           destruct (kept f now (spans (cache f) !! k0)),
                    (spans (cache f) !! k0);
             rewrite ?lookup_delete_ne by congruence; reflexivity.
    + intros k. rewrite Hnw'.
      destruct (decide (k ∈ order)) as [Hin|Hnin].
      * rewrite decide_True by (right; exact Hin).
        rewrite Hkept, (proj1 (Hsame k Hin)), (proj2 (Hsame k Hin)).
        reflexivity.
      * destruct (decide (k = k0)) as [->|Hne].
        -- rewrite decide_True by left. rewrite Hnw.
           destruct (kept f now (spans (cache f) !! k0)),
                    (spans (cache f) !! k0);
             rewrite ?lookup_delete_eq; reflexivity.
        -- rewrite decide_False
             by (intros Hin; apply elem_of_cons in Hin as [?|?]; contradiction).
           rewrite Hnw.
           destruct (kept f now (spans (cache f) !! k0)),
                    (spans (cache f) !! k0);
             rewrite ?lookup_delete_ne by congruence; reflexivity.
Qed.

Lemma visits_nil {A} : visits (A := A) [] ∅.
Proof.
  split; [constructor|]. intros k. rewrite lookup_empty. split.
  - intros Hin. inversion Hin.
  - intros [x Hx]. discriminate.
Qed.

Lemma visits_insert {A} order (m : gmap string A) k (x : A) :
  visits order m -> k ∉ order -> visits (k :: order) (<[k := x]> m).
Proof.
  intros [Hnodup Hcover] Hnotin. split; [constructor; assumption|].
  intros k'. rewrite elem_of_cons, lookup_insert. case_decide as Hk.
  - subst. split; eauto.
  - rewrite Hcover. split; [intros [?|?]; [congruence|assumption]|auto].
Qed.

(** X1. The expiry sweep, on a cache where every span sits under its
    own series: exactly the spans expired at [now] leave the span map,
    together with their last-seen times; the other entries are left as
    they were; and what is sent is, in the order of the visit, what the
    flush of each expired span sends. *)
Theorem FlushExpiredSpans_spec order (now : Time) f f' out :
  cache_wf f ->
  visits order (spans (cache f)) ->
  FlushExpiredSpans order now f = (f', out) ->
  (forall k, spans (cache f') !! k = kept f now (spans (cache f) !! k)) /\
  (forall k,
     nows (cache f') !! k =
     match spans (cache f) !! k with
     | Some s => if SpanExpired f s now then None else nows (cache f) !! k
     | None => nows (cache f) !! k
     end) /\
  out = flat_map (fun k => swept f now (spans (cache f) !! k)) order /\
  cache_wf f'.
Proof.
  intros Hwf [Hnodup Hcover] Hrun.
  destruct (FlushExpiredSpans_fold order now Hnodup f [] f' out Hwf Hrun)
    as (Hwf' & _ & _ & _ & Hout & Hsp & Hnw).
  split; [|split; [|split; [exact Hout|exact Hwf']]].
  - intros k. rewrite Hsp. case_decide as Hin; [reflexivity|].
    destruct (spans (cache f) !! k) eqn:Hk; [|reflexivity].
    exfalso. apply Hin, Hcover. eauto.
  - intros k. rewrite Hnw. unfold kept.
    destruct (spans (cache f) !! k) as [s|] eqn:Hk.
    + rewrite decide_True by (apply Hcover; eauto).
      destruct (SpanExpired f s now); reflexivity.
    + case_decide; reflexivity.
Qed.

(** A sweep that finds no span expired does nothing at all. *)
Lemma FlushExpiredSpans_nothing order (now : Time) f :
  (forall k s, spans (cache f) !! k = Some s -> SpanExpired f s now = false) ->
  FlushExpiredSpans order now f = (f, []).
Proof.
  intros Hnone. unfold FlushExpiredSpans.
  induction order as [|k order IH]; [reflexivity|].
  cbn [fold_left]. unfold FlushExpiredSpans_visit at 2.
  destruct (spans (cache f) !! k) as [s|] eqn:Hs; [|exact IH].
  rewrite (Hnone _ _ Hs). exact IH.
Qed.

(** X2. After an expiry sweep at [now], a second sweep at [now] or at
    any earlier time, in whatever order, sends nothing and changes
    nothing. *)
Theorem FlushExpiredSpans_again order order' (now now' : Time) f f' out :
  cache_wf f ->
  visits order (spans (cache f)) ->
  FlushExpiredSpans order now f = (f', out) ->
  now' <= now ->
  FlushExpiredSpans order' now' f' = (f', []).
Proof.
  intros Hwf [Hnodup Hcover] Hrun Hle.
  destruct (FlushExpiredSpans_fold order now Hnodup f [] f' out Hwf Hrun)
    as (_ & Hc & _ & Hl & _ & Hsp & _).
  apply FlushExpiredSpans_nothing. intros k s Hs.
  rewrite Hsp in Hs.
  assert (Hkept : kept f now (spans (cache f) !! k) = Some s).
  { case_decide as Hin; [exact Hs|].
    exfalso. apply Hin, Hcover. eauto. }
  unfold kept in Hkept.
  destruct (spans (cache f) !! k) as [s0|]; [|discriminate].
  destruct (SpanExpired f s0 now) eqn:Hexp; [discriminate|].
  injection Hkept as ->.
  apply not_true_is_false. intros Hexp'.
  apply SpanExpired_spec in Hexp'. rewrite Hc, Hl in Hexp'.
  assert (SpanExpired f s now = true); [|congruence].
  apply SpanExpired_spec. lia.
Qed.

(** *** The drain *)

Lemma flushSpan_sent f k s :
  flushSpan f k s =
  (set_spans
     (<[k := match aggregator f (span.Values s) with
             | Ok x => finished s x
             | Err _ =>
                 span.set_Duration (Sub (span.End_ s) (span.Start s)) s
             end]> (spans (cache f))) f,
   sent f s).
Proof.
  unfold sent. destruct (aggregator f (span.Values s)) as [x|e] eqn:Hagg.
  - apply flushSpan_Ok, Hagg.
  - apply (flushSpan_Err _ _ _ e), Hagg.
Qed.

Lemma FlushStuckSpans_visit_spec f out0 k :
  FlushStuckSpans_visit (f, out0) k =
  match spans (cache f) !! k with
  | Some s => if stuck f s then (forget k f, out0 ++ sent f s) else (f, out0)
  | None => (f, out0)
  end.
Proof.
  unfold FlushStuckSpans_visit, stuck.
  destruct (spans (cache f) !! k) as [s|]; [|reflexivity].
  destruct (After _ _); [|reflexivity].
  rewrite flushSpan_sent. unfold forget, set_nows, set_spans, set_cache.
  simpl. rewrite delete_insert_eq. reflexivity.
Qed.

Lemma FlushStuckSpans_fold order :
  NoDup order ->
  forall f out0 f' out,
  fold_left FlushStuckSpans_visit order (f, out0) = (f', out) ->
  config f' = config f /\ aggregator f' = aggregator f /\
  lastDate f' = lastDate f /\
  out = out0 ++
        flat_map (fun k => match spans (cache f) !! k with
                           | Some s => if stuck f s then sent f s else []
                           | None => []
                           end) order /\
  (forall k,
     spans (cache f') !! k =
     match spans (cache f) !! k with
     | Some s => if decide (k ∈ order) then
                   if stuck f s then None else Some s
                 else Some s
     | None => None
     end) /\
  (forall k,
     nows (cache f') !! k =
     match spans (cache f) !! k with
     | Some s => if decide (k ∈ order) then
                   if stuck f s then None else nows (cache f) !! k
                 else nows (cache f) !! k
     | None => nows (cache f) !! k
     end).
Proof.
  induction 1 as [|k0 order Hnotin Hnodup IH]; intros f out0 f' out.
  - cbn [fold_left flat_map]. intros [= <- <-]. rewrite app_nil_r.
    do 4 (split; [reflexivity|]).
    split; intros k; destruct (spans (cache f) !! k);
      rewrite ?decide_False by apply not_elem_of_nil; reflexivity.
  - cbn [fold_left flat_map]. rewrite FlushStuckSpans_visit_spec.
    destruct (spans (cache f) !! k0) as [s0|] eqn:Hs0;
      [destruct (stuck f s0) eqn:Hstuck|]; intros Hfold;
      destruct (IH _ _ _ _ Hfold) as (Hc & Ha & Hl & -> & Hsp & Hnw);
      (split; [exact Hc|]); (split; [exact Ha|]); (split; [exact Hl|]).
    + (* the visited span is stuck and leaves *)
      split; [|split].
      * rewrite <- app_assoc. do 2 f_equal.
        apply flat_map_agree. intros k Hin. simpl.
        rewrite lookup_delete_ne by (intros ->; contradiction).
        reflexivity.
      * intros k. rewrite Hsp. simpl.
        destruct (decide (k = k0)) as [->|Hne].
        -- rewrite lookup_delete_eq, Hs0, decide_True by left.
           rewrite Hstuck. reflexivity.
        -- rewrite lookup_delete_ne by congruence.
           destruct (spans (cache f) !! k); [|reflexivity].
           destruct (decide (k ∈ order)).
           ++ rewrite decide_True by (right; assumption). reflexivity.
           ++ rewrite decide_False; [reflexivity|].
              intros Hin. apply elem_of_cons in Hin as [?|?]; contradiction.
      * intros k. rewrite Hnw. simpl.
        destruct (decide (k = k0)) as [->|Hne].
        -- rewrite !lookup_delete_eq, Hs0, decide_True by left.
           rewrite Hstuck. reflexivity.
        -- rewrite !lookup_delete_ne by congruence.
           destruct (spans (cache f) !! k); [|reflexivity].
           destruct (decide (k ∈ order)).
           ++ rewrite decide_True by (right; assumption). reflexivity.
           ++ rewrite decide_False; [reflexivity|].
              intros Hin. apply elem_of_cons in Hin as [?|?]; contradiction.
    + (* the visited span is not stuck and stays *)
      split; [reflexivity|]. split.
      * intros k. rewrite Hsp.
        destruct (spans (cache f) !! k) as [s|] eqn:Hs; [|reflexivity].
        destruct (decide (k ∈ order)).
        -- rewrite decide_True by (right; assumption). reflexivity.
        -- destruct (decide (k = k0)) as [->|Hne].
           ++ rewrite decide_True by left.
              assert (s = s0) as -> by congruence. rewrite Hstuck.
              reflexivity.
           ++ rewrite decide_False; [reflexivity|].
              intros Hin. apply elem_of_cons in Hin as [?|?]; contradiction.
      * intros k. rewrite Hnw.
        destruct (spans (cache f) !! k) as [s|] eqn:Hs; [|reflexivity].
        destruct (decide (k ∈ order)).
        -- rewrite decide_True by (right; assumption). reflexivity.
        -- destruct (decide (k = k0)) as [->|Hne].
           ++ rewrite decide_True by left.
              assert (s = s0) as -> by congruence. rewrite Hstuck.
              reflexivity.
           ++ rewrite decide_False; [reflexivity|].
              intros Hin. apply elem_of_cons in Hin as [?|?]; contradiction.
    + (* nothing under the visited key *)
      split; [reflexivity|]. split.
      * intros k. rewrite Hsp.
        destruct (spans (cache f) !! k) as [s|] eqn:Hs; [|reflexivity].
        destruct (decide (k ∈ order)).
        -- rewrite decide_True by (right; assumption). reflexivity.
        -- rewrite decide_False; [reflexivity|].
           intros Hin. apply elem_of_cons in Hin as [?|?];
             [congruence|contradiction].
      * intros k. rewrite Hnw.
        destruct (spans (cache f) !! k) as [s|] eqn:Hs; [|reflexivity].
        destruct (decide (k ∈ order)).
        -- rewrite decide_True by (right; assumption). reflexivity.
        -- rewrite decide_False; [reflexivity|].
           intros Hin. apply elem_of_cons in Hin as [?|?];
             [congruence|contradiction].
Qed.

(** X3. The drain: exactly the spans whose nominal expiry (end plus
    span width) lies strictly after the last date leave the span map,
    with their last-seen times; a span whose nominal expiry is the last
    date itself stays.  What is sent is, in the order of the visit, what
    the flush of each drained span sends. *)
Theorem FlushStuckSpans_spec order f f' out :
  visits order (spans (cache f)) ->
  FlushStuckSpans order f = (f', out) ->
  (forall k,
     spans (cache f') !! k =
     match spans (cache f) !! k with
     | Some s =>
         if bool_decide (lastDate f
                         < span.End_ s + seconds (SpanWidth (config f)))
         then None else Some s
     | None => None
     end) /\
  (forall k,
     nows (cache f') !! k =
     match spans (cache f) !! k with
     | Some s =>
         if bool_decide (lastDate f
                         < span.End_ s + seconds (SpanWidth (config f)))
         then None else nows (cache f) !! k
     | None => nows (cache f) !! k
     end) /\
  out = flat_map (fun k => match spans (cache f) !! k with
                           | Some s => if stuck f s then sent f s else []
                           | None => []
                           end) order.
Proof.
  intros [Hnodup Hcover] Hrun.
  destruct (FlushStuckSpans_fold order Hnodup f [] f' out Hrun)
    as (_ & _ & _ & Hout & Hsp & Hnw).
  assert (Hstuck : forall s,
            bool_decide (lastDate f
                         < span.End_ s + seconds (SpanWidth (config f)))
            = stuck f s).
  { intros s. unfold stuck, After, Add.
    destruct (Z.ltb_spec (lastDate f)
                (span.End_ s + seconds (SpanWidth (config f))));
      [apply bool_decide_eq_true_2|apply bool_decide_eq_false_2]; lia. }
  split; [|split; [|exact Hout]].
  - intros k. rewrite Hsp.
    destruct (spans (cache f) !! k) as [s|] eqn:Hk; [|reflexivity].
    rewrite decide_True by (apply Hcover; eauto). rewrite Hstuck.
    reflexivity.
  - intros k. rewrite Hnw.
    destruct (spans (cache f) !! k) as [s|] eqn:Hk; [|reflexivity].
    rewrite decide_True by (apply Hcover; eauto). rewrite Hstuck.
    reflexivity.
Qed.

(** A drain that finds no span stuck does nothing at all. *)
Lemma FlushStuckSpans_nothing order f :
  (forall k s, spans (cache f) !! k = Some s -> stuck f s = false) ->
  FlushStuckSpans order f = (f, []).
Proof.
  intros Hnone. unfold FlushStuckSpans.
  induction order as [|k order IH]; [reflexivity|].
  cbn [fold_left]. rewrite FlushStuckSpans_visit_spec.
  destruct (spans (cache f) !! k) as [s|] eqn:Hs; [|exact IH].
  rewrite (Hnone _ _ Hs). exact IH.
Qed.

(** A stuck span is expired at every time. *)
Lemma stuck_SpanExpired f s (now : Time) :
  stuck f s = true -> SpanExpired f s now = true.
Proof.
  unfold stuck. rewrite After_spec, SpanExpired_spec. unfold Add. lia.
Qed.

(** X4. Every span the drain would flush is one the expiry sweep
    flushes, whatever the time of the sweep: a drain that follows an
    expiry sweep sends nothing and changes nothing. *)
Theorem FlushStuckSpans_after_sweep order order' (now : Time) f f' out :
  cache_wf f ->
  visits order (spans (cache f)) ->
  FlushExpiredSpans order now f = (f', out) ->
  FlushStuckSpans order' f' = (f', []).
Proof.
  intros Hwf [Hnodup Hcover] Hrun.
  destruct (FlushExpiredSpans_fold order now Hnodup f [] f' out Hwf Hrun)
    as (_ & Hc & _ & Hl & _ & Hsp & _).
  apply FlushStuckSpans_nothing. intros k s Hs.
  rewrite Hsp in Hs.
  assert (Hkept : kept f now (spans (cache f) !! k) = Some s).
  { case_decide as Hin; [exact Hs|].
    exfalso. apply Hin, Hcover. eauto. }
  unfold kept in Hkept.
  destruct (spans (cache f) !! k) as [s0|]; [|discriminate].
  destruct (SpanExpired f s0 now) eqn:Hexp; [discriminate|].
  injection Hkept as ->.
  apply not_true_is_false. intros Hstuck.
  assert (stuck f s = true) as Hstuck'.
  { unfold stuck in *. rewrite <- Hc, <- Hl. exact Hstuck. }
  rewrite (stuck_SpanExpired f s now Hstuck') in Hexp. discriminate.
Qed.

End gatherFilter_sweeps.

(** ** The sweeps at work on sample data *)

Lemma two_spans_wf : gatherFilter.spans_wf Sample.two_spans.
Proof.
  apply spans_wf_insert; [|reflexivity|discriminate].
  apply spans_wf_insert; [|reflexivity|discriminate].
  apply spans_wf_empty.
Qed.

Lemma two_spans_visits :
  gatherFilter.visits ["A"%string; "B"%string] Sample.two_spans.
Proof.
  apply visits_insert.
  - apply visits_insert; [apply visits_nil|apply not_elem_of_nil].
  - intros Hin. apply elem_of_cons in Hin as [Hin|Hin];
      [discriminate|inversion Hin].
Qed.

(** X1 at work: at second 100 the span of series A (end 30, width 60)
    is expired and that of series B (end 200) is not. *)
Lemma FlushExpiredSpans_spec_witness :
  let '(f', out) :=
    gatherFilter.FlushExpiredSpans ["A"%string; "B"%string] (100 * Second)
      (Sample.gatherer Sample.two_spans) in
  gatherFilter.spans (gatherFilter.cache f') !! "A"%string = None /\
  gatherFilter.spans (gatherFilter.cache f') !! "B"%string
    = Sample.two_spans !! "B"%string /\
  out = [ {| span.Series := "A"; span.Values := [3%float];
             span.Start := 0; span.End_ := 30 * Second;
             span.Duration := 30 * Second; span.Score := 3%float;
             span.Passthrough := tt |} ].
Proof.
  destruct (gatherFilter.FlushExpiredSpans _ _ _) as [f' out] eqn:Hrun.
  destruct (FlushExpiredSpans_spec _ _ (Sample.gatherer Sample.two_spans)
              _ _ two_spans_wf two_spans_visits Hrun) as (Hsp & _ & -> & _).
  rewrite !Hsp. repeat split.
Defined.

(** X2 at work: the sweep at second 100 followed by one at second 95. *)
Lemma FlushExpiredSpans_again_witness :
  let '(f', _) :=
    gatherFilter.FlushExpiredSpans ["A"%string; "B"%string] (100 * Second)
      (Sample.gatherer Sample.two_spans) in
  gatherFilter.FlushExpiredSpans ["B"%string; "A"%string] (95 * Second) f'
  = (f', []).
Proof.
  destruct (gatherFilter.FlushExpiredSpans _ _ _) as [f' out] eqn:Hrun.
  apply (FlushExpiredSpans_again _ _ _ _
           (Sample.gatherer Sample.two_spans) _ _ two_spans_wf
           two_spans_visits Hrun).
  unfold Second. lia.
Defined.

(** X3 at work: with the last date at second 250, the span of series B
    (nominal expiry 260) is drained and that of series A (90) is not. *)
Lemma FlushStuckSpans_spec_witness :
  let '(f', out) :=
    gatherFilter.FlushStuckSpans ["A"%string; "B"%string]
      (Sample.closing 250 Sample.two_spans) in
  gatherFilter.spans (gatherFilter.cache f') !! "B"%string = None /\
  gatherFilter.spans (gatherFilter.cache f') !! "A"%string
    = Sample.two_spans !! "A"%string /\
  out = [ {| span.Series := "B"; span.Values := [(-1)%float];
             span.Start := 100 * Second; span.End_ := 200 * Second;
             span.Duration := 100 * Second; span.Score := (-1)%float;
             span.Passthrough := tt |} ].
Proof.
  destruct (gatherFilter.FlushStuckSpans _ _) as [f' out] eqn:Hrun.
  destruct (FlushStuckSpans_spec _ (Sample.closing 250 Sample.two_spans)
              _ _ two_spans_visits Hrun) as (Hsp & _ & ->).
  rewrite !Hsp. repeat split.
Defined.

(** X4 at work: the drain after the sweep at second 100. *)
Lemma FlushStuckSpans_after_sweep_witness :
  let '(f', _) :=
    gatherFilter.FlushExpiredSpans ["A"%string; "B"%string] (100 * Second)
      (Sample.closing 250 Sample.two_spans) in
  gatherFilter.FlushStuckSpans ["B"%string; "A"%string] f' = (f', []).
Proof.
  destruct (gatherFilter.FlushExpiredSpans _ _ _) as [f' out] eqn:Hrun.
  exact (FlushStuckSpans_after_sweep _ _ _
           (Sample.closing 250 Sample.two_spans) _ _ two_spans_wf
           two_spans_visits Hrun).
Defined.

(** ** More on the gather filter *)

Section gatherFilter_more.
Context {Payload : Type}.
Implicit Types (f : gatherFilter.t Payload) (s : span Payload)
  (r : ruling Payload) (rs : list (ruling Payload)) (k : string)
  (v : float).

Import gatherFilter.

Lemma Connect_step_sent f r f' out :
  cache_wf f ->
  Connect_step f r = Some (f', out) ->
  aggregator f' = aggregator f /\ cache_wf f' /\
  (out = [] \/
   exists s, spans (cache f) !! Window.Series (ruling.Window r) = Some s /\
             out = sent f s).
Proof.
  intros Hwf Hstep.
  destruct (Connect_step_Some f r f' out Hstep) as [x Hx].
  pose proof (proj1 (Connect_step_keeps_wf f r f' out Hwf Hstep)) as Hwf1.
  destruct (Connect_step_transition f r x Hwf Hx)
    as (o & out2 & f2 & Htr & Hstep2 & _ & _ & Ha & _ & _).
  rewrite Hstep in Hstep2. injection Hstep2 as <- <-.
  split; [exact Ha|]. split; [exact Hwf1|].
  revert Htr. unfold transition. rewrite Hx.
  destruct x as [v|e]; [|intros [= _ <-]; auto].
  destruct (spans (cache f) !! Window.Series (ruling.Window r)) as [s|].
  - destruct (ruling.Anomalous r).
    + destruct (span.Values s); [discriminate|].
      destruct (sameSign _ _); intros [= _ <-]; eauto.
    + destruct (SpanExpired f s _); intros [= _ <-]; eauto.
  - destruct (ruling.Anomalous r); intros [= _ <-]; auto.
Qed.

Lemma sent_stamped f s :
  span.Values s <> [] -> Forall (stamped (aggregator f)) (sent f s).
Proof.
  intros Hne. unfold sent.
  destruct (aggregator f (span.Values s)) as [x|e] eqn:Hagg;
    repeat constructor; simpl; assumption.
Qed.

(** X5. Every span that [Connect] sends, from a cache where every span
    sits under its own series and has a magnitude, is stamped: its
    duration is its end minus its start, it has at least one magnitude,
    and its score is the statistic of its magnitudes. *)
Theorem Connect_sends_stamped f rs f' out :
  cache_wf f ->
  Connect f rs = Some (f', out) ->
  Forall (stamped (aggregator f)) out.
Proof.
  revert f f' out. induction rs as [|r rs IH]; intros f f' out Hwf.
  - intros [= _ <-]. constructor.
  - simpl. destruct (Connect_step f r) as [[f1 out1]|] eqn:Hstep;
      [|discriminate].
    destruct (Connect f1 rs) as [[f2 out2]|] eqn:Hrest; [|discriminate].
    intros [= _ <-].
    destruct (Connect_step_sent f r f1 out1 Hwf Hstep) as (Ha & Hwf1 & Hout).
    apply Forall_app. split.
    + destruct Hout as [->|(s & Hs & ->)]; [constructor|].
      apply sent_stamped, (Hwf _ _ Hs).
    + rewrite <- Ha. apply (IH f1 f2 out2 Hwf1 Hrest).
Qed.

(** X6. Rulings that are not anomalous never open a span: when the
    configured name is not that of a field of another kind (on which the
    lookup panics), a stream without anomalous rulings, from an empty span
    map, sends nothing and leaves the span map empty, whether the rulings
    have the field or not. *)
Theorem Connect_no_anomaly f rs :
  ruling.notFloat (ValueField (config f)) = false ->
  spans (cache f) = ∅ ->
  Forall (fun r => ruling.Anomalous r = false) rs ->
  exists f', Connect f rs = Some (f', []) /\ spans (cache f') = ∅ /\
             config f' = config f.
Proof.
  revert f. induction rs as [|r rs IH]; intros f Hname Hempty Hall.
  - exists f. auto.
  - inversion Hall as [|? ? Hr Hrs]; subst.
    assert (Hstep : exists f1, Connect_step f r = Some (f1, []) /\
                               spans (cache f1) = ∅ /\
                               config f1 = config f).
    { destruct (getRulingValue_returns f r Hname) as [x Hx].
      unfold Connect_step.
      change (getRulingValue (set_nows _ f) r) with (getRulingValue f r).
      rewrite Hx. simpl. rewrite Hempty, lookup_empty, Hr.
      destruct x; eexists; (split; [reflexivity|]); split;
        try reflexivity; exact Hempty. }
    destruct Hstep as (f1 & Hstep & Hempty1 & Hcfg1).
    rewrite (Connect_cons_silent _ _ _ _ Hstep).
    rewrite <- Hcfg1 in Hname.
    destruct (IH f1 Hname Hempty1 Hrs) as (f' & Hrun & He & Hc).
    exists f'. split; [exact Hrun|]. split; [exact He|]. congruence.
Qed.

(** X7. The gap limit is not applied to anomalous rulings: a span that
    is already expired at the ruling's window end is still extended by an
    anomalous ruling of its sign; its start stays, its end moves to the
    ruling's window end, and nothing is sent.  With a span width that is
    not negative and a last date beyond the new nominal expiry, the span
    is then no longer expired at that time. *)
Theorem Connect_step_revives f k s first rest r v :
  spans (cache f) !! k = Some s ->
  span.Values s = first :: rest ->
  anomaly (ValueField (config f)) k r v ->
  sameSign first v = true ->
  SpanExpired f s (Window.End_ (ruling.Window r)) = true ->
  exists f' s',
    Connect_step f r = Some (f', []) /\
    spans (cache f') !! k = Some s' /\
    s' = {| span.Series := span.Series s;
            span.Values := span.Values s ++ [v];
            span.Start := span.Start s;
            span.End_ := Window.End_ (ruling.Window r);
            span.Duration := span.Duration s;
            span.Score := span.Score s;
            span.Passthrough := span.Passthrough s |} /\
    (0 <= seconds (SpanWidth (config f)) ->
     Window.End_ (ruling.Window r) + seconds (SpanWidth (config f))
       < lastDate f ->
     SpanExpired f' s' (Window.End_ (ruling.Window r)) = false).
Proof.
  intros Hs Hvals Hr Hsign _.
  rewrite (Connect_step_extend f k s first rest r v Hs Hvals Hr Hsign).
  eexists _, _. split; [reflexivity|]. split; [apply lookup_insert_eq|].
  split; [reflexivity|]. intros Hwidth Hlast.
  apply not_true_is_false. rewrite SpanExpired_spec. simpl.
  unfold Add. lia.
Qed.

(** X8. After a change of sign the new span has no last-seen time: the
    flush of the old span deletes the time that the same ruling has just
    recorded. *)
Theorem Connect_step_flip_forgets_now f r s first rest v :
  spans (cache f) !! Window.Series (ruling.Window r) = Some s ->
  span.Series s = Window.Series (ruling.Window r) ->
  span.Values s = first :: rest ->
  ruling.Anomalous r = true ->
  getRulingValue f r = Some (Ok v) ->
  sameSign first v = false ->
  exists f' out,
    Connect_step f r = Some (f', out) /\
    spans (cache f') !! Window.Series (ruling.Window r)
      = Some (newSpan r v) /\
    nows (cache f') !! Window.Series (ruling.Window r) = None.
Proof.
  intros Hs Hk Hvals Hanom Hv Hsign.
  rewrite (Connect_step_flip f r s first rest v Hs Hk Hvals Hanom Hv Hsign).
  eexists _, _. split; [reflexivity|]. simpl. rewrite Hk. split.
  - apply lookup_insert_eq.
  - apply lookup_delete_eq.
Qed.

(** X9. The magnitude of the ruling that finds the span expired is kept
    nowhere: the span is flushed with the magnitudes it had, its entry
    is removed, and an anomalous ruling that follows opens a span with
    its own magnitude only. *)
Theorem Connect_expiry_drops_magnitude f k s r1 v1 r2 v2 :
  spans (cache f) !! k = Some s ->
  span.Series s = k ->
  Window.Series (ruling.Window r1) = k ->
  ruling.Anomalous r1 = false ->
  getRulingValue f r1 = Some (Ok v1) ->
  SpanExpired f s (Window.End_ (ruling.Window r1)) = true ->
  anomaly (ValueField (config f)) k r2 v2 ->
  exists f',
    Connect f [r1; r2] = Some (f', sent f s) /\
    spans (cache f') !! k = Some (newSpan r2 v2).
Proof.
  intros Hs Hser Hk1 Hanom Hv1 Hexp Hr2. subst k.
  rewrite <- Hk1 in Hs.
  pose proof (Connect_step_expired f r1 s v1 Hs (eq_sym Hk1)
                Hanom Hv1 Hexp) as Hstep.
  fold (sent f s) in Hstep.
  rewrite (Connect_cons _ _ _ _ _ Hstep).
  assert (Hnone : spans (cache (forget (span.Series s) f))
                    !! span.Series s = None) by apply lookup_delete_eq.
  rewrite (Connect_cons_silent _ _ _ _
             (Connect_step_open _ _ r2 v2 Hnone Hr2)).
  cbn [Connect]. rewrite app_nil_r.
  eexists. split; [reflexivity|].
  simpl. apply lookup_insert_eq.
Qed.

End gatherFilter_more.

(** ** Initialisation of the gather filter *)

Section gatherFilter_Init.
Context {Payload : Type}.
Context (stats_Sum stats_Mean stats_Median stats_Midhinge stats_Trimean
         : statistic).
Context (parseRFC3339 : string -> result Time).
Implicit Types (f : gatherFilter.t Payload).

Import gatherFilter.

Local Abbreviation Init :=
  (gatherFilter.Init (Payload := Payload)
     stats_Sum stats_Mean stats_Median stats_Midhinge stats_Trimean
     parseRFC3339).

(** X10. When [Init] succeeds.  It returns no error exactly when the
    filter is disabled, or the span width is positive and the last date is
    the word today, the word yesterday, or a text the RFC 3339 parser
    accepts. *)
Theorem Init_ok_iff (now : Time) f cfg :
  snd (Init now f cfg) = None <->
  Disabled cfg = true \/
  (0 < SpanWidth cfg /\
   (LastDate cfg = "today"%string \/ LastDate cfg = "yesterday"%string \/
    exists d, parseRFC3339 (LastDate cfg) = Ok d)).
Proof.
  unfold gatherFilter.Init.
  destruct (Disabled cfg); [simpl; tauto|].
  destruct (Z.leb_spec (SpanWidth cfg) 0) as [Hle|Hlt]; simpl.
  { split; [discriminate|]. intros [?|[? _]]; [discriminate|lia]. }
  destruct (String.eqb_spec (LastDate cfg) "today") as [Ht|Ht]; simpl.
  { split; auto. }
  destruct (String.eqb_spec (LastDate cfg) "yesterday") as [Hy|Hy]; simpl.
  { split; auto. }
  destruct (parseRFC3339 (LastDate cfg)) as [d|e]; simpl.
  - split; eauto 6.
  - split; [discriminate|].
    intros [?|[_ [?|[?|[d ?]]]]]; congruence.
Qed.

(** X11. What an enabled [Init] sets up: the statistic chosen by name,
    empty maps, and as last date the clock reading for today, the clock
    reading less 24 hours for yesterday, the parsed time otherwise.  From
    there, when the configured name is not that of a field of another
    kind, [Connect] handles every stream of rulings: the index
    [s.Values[0]] is never out of range. *)
Theorem Connect_after_Init (now : Time) f0 cfg f
  (rs : list (ruling Payload)) :
  Disabled cfg = false ->
  Init now f0 cfg = (f, None) ->
  ruling.notFloat (ValueField cfg) = false ->
  aggregator f
    = getAggregator stats_Sum stats_Mean stats_Median stats_Midhinge
        stats_Trimean cfg /\
  spans (cache f) = ∅ /\ nows (cache f) = ∅ /\
  (LastDate cfg = "today"%string -> lastDate f = now) /\
  (LastDate cfg = "yesterday"%string ->
   lastDate f = now - 24 * 3600 * Second) /\
  (LastDate cfg <> "today"%string -> LastDate cfg <> "yesterday"%string ->
   parseRFC3339 (LastDate cfg) = Ok (lastDate f)) /\
  exists f' out, Connect f rs = Some (f', out) /\ cache_wf f'.
Proof.
  intros Hd Hinit Hname.
  assert (Hwf : cache_wf f).
  { eapply Init_enabled_wf; eassumption. }
  revert Hinit. unfold gatherFilter.Init. rewrite Hd.
  destruct (Z.leb_spec (SpanWidth cfg) 0); [discriminate|].
  destruct (String.eqb_spec (LastDate cfg) "today") as [Ht|Ht].
  - intros [= <-]. simpl. repeat split; try congruence.
    apply Connect_wf; [apply spans_wf_empty|exact Hname].
  - destruct (String.eqb_spec (LastDate cfg) "yesterday") as [Hy|Hy].
    + intros [= <-]. simpl. repeat split; try congruence.
      apply Connect_wf; [apply spans_wf_empty|exact Hname].
    + destruct (parseRFC3339 (LastDate cfg)) as [d|e] eqn:Hparse;
        intros [= <-]. simpl. repeat split; try congruence.
      apply Connect_wf; [apply spans_wf_empty|exact Hname].
Qed.

(** X21. [Init] does not look at the value field.  With the name of
    the ruling's [Window] or [Anomalous] field it succeeds all the same,
    and [Connect] then panics on the first ruling it receives, whatever
    the ruling: [Float] is called on a field that is not a float. *)
Theorem Connect_after_Init_panics (now : Time) f0 cfg f
  (r : ruling Payload) (rs : list (ruling Payload)) :
  Disabled cfg = false ->
  Init now f0 cfg = (f, None) ->
  ruling.notFloat (ValueField cfg) = true ->
  getRulingValue f r = None /\ Connect f (r :: rs) = None.
Proof.
  intros Hd Hinit Hname.
  assert (Hcfg : config f = cfg).
  { revert Hinit. unfold gatherFilter.Init. rewrite Hd.
    destruct (SpanWidth cfg <=? 0); [discriminate|].
    destruct (if String.eqb (LastDate cfg) "today" then _ else _);
      intros [= <-]. reflexivity. }
  rewrite <- Hcfg in Hname.
  pose proof (getRulingValue_panics f r Hname) as Hpanic.
  split; [exact Hpanic|].
  cbn [Connect]. unfold Connect_step.
  change (getRulingValue (set_nows _ f) r) with (getRulingValue f r).
  rewrite Hpanic. reflexivity.
Qed.

End gatherFilter_Init.

(** ** More on the window filter *)

Section WindowFilter_more.
Context {Payload : Type}.
Implicit Types (f : WindowFilter.t Payload) (w : Window Payload)
  (m : Metric Payload) (ms : list (Metric Payload)) (k : string).

Import WindowFilter.

(** What one metric does to the map: the entry of its series is
    replaced, by a window that ends at the metric's timestamp and keeps
    the series and passthrough of the window that was there (or takes the
    metric's, if there was none); a window that is sent has the start,
    series and passthrough of the window that was there. *)
Lemma Connect_step_shape f m :
  let old :=
    default {| Window.Start := Metric.Timestamp m; Window.End_ := 0;
               Window.Series := Metric.Series m; Window.Value := 0%float;
               Window.Passthrough := Metric.Passthrough m |}
            (windows f !! Metric.Series m) in
  exists w' out,
    Connect_step f m =
      ({| windows := <[Metric.Series m := w']> (windows f);
          config := config f |}, out) /\
    Window.End_ w' = Metric.Timestamp m /\
    Window.Series w' = Window.Series old /\
    Window.Passthrough w' = Window.Passthrough old /\
    ((out = [] /\ Window.Start w' = Window.Start old /\
      wholeSeconds (Sub (Metric.Timestamp m) (Window.Start old))
        < WindowWidth (config f)) \/
     (exists c, out = [c] /\ Window.Start w' = Metric.Timestamp m /\
        Window.Start c = Window.Start old /\
        Window.End_ c
          = Window.End_ old + seconds (WindowWidth (config f)) /\
        Window.Series c = Window.Series old /\
        Window.Passthrough c = Window.Passthrough old /\
        WindowWidth (config f)
          <= wholeSeconds (Sub (Metric.Timestamp m) (Window.Start old)))).
Proof.
  intros old. unfold Connect_step.
  change (match windows f !! Metric.Series m with
          | Some w => w
          | None => _
          end) with old.
  destruct (Z.leb_spec (WindowWidth (config f))
              (wholeSeconds (Sub (Metric.Timestamp m) (Window.Start old)))).
  - eexists _, _. split; [reflexivity|]. simpl.
    do 3 (split; [reflexivity|]). right. eexists. repeat split. assumption.
  - eexists _, _. split; [reflexivity|]. simpl.
    do 3 (split; [reflexivity|]). left. repeat split. assumption.
Qed.

Lemma Connect_other_series f ms k :
  ofSeries k ms = [] ->
  windows (fst (Connect f ms)) !! k = windows f !! k.
Proof.
  revert f. induction ms as [|m ms IH]; intros f Hnone; [reflexivity|].
  unfold ofSeries in Hnone. rewrite filter_cons in Hnone.
  destruct (decide (Metric.Series m = k)) as [Hk|Hk]; [discriminate|].
  simpl. pose proof (WindowFilter_other_series f m k Hk) as Hframe.
  destruct (Connect_step f m) as [f1 out1]. simpl in Hframe.
  specialize (IH f1 Hnone).
  destruct (Connect f1 ms) as [f2 out2]. simpl in *. congruence.
Qed.

(** X12. Accumulators are never dropped, and the latest metric of a
    series is never sent on: after any stream, every series that had an
    accumulator still has one, and every series with a metric in the
    stream has an accumulator that ends at the timestamp of its latest
    metric. *)
Theorem Connect_holds_latest f ms :
  (forall k, is_Some (windows f !! k) ->
             is_Some (windows (fst (Connect f ms)) !! k)) /\
  (forall k m, last (ofSeries k ms) = Some m ->
     exists w, windows (fst (Connect f ms)) !! k = Some w /\
               Window.End_ w = Metric.Timestamp m).
Proof.
  revert f. induction ms as [|m0 ms IH]; intros f.
  - split; [auto|]. intros k m. discriminate.
  - destruct (Connect_step_shape f m0)
      as (w' & out & Hstep & Hend & _ & _ & _).
    destruct (IH (fst (Connect_step f m0))) as [IHdom IHlast].
    assert (Hfst : fst (Connect f (m0 :: ms))
                   = fst (Connect (fst (Connect_step f m0)) ms)).
    { simpl. destruct (Connect_step f m0) as [f1 o1]. simpl.
      destruct (Connect f1 ms). reflexivity. }
    rewrite Hfst. split.
    + intros k Hk. apply IHdom. rewrite Hstep. simpl.
      rewrite lookup_insert. case_decide; eauto.
    + intros k m Hlast. unfold ofSeries in Hlast.
      rewrite filter_cons in Hlast. fold (ofSeries k ms) in Hlast.
      specialize (IHlast k). revert Hlast IHlast.
      destruct (ofSeries k ms) as [|m1 rest] eqn:Hrest; intros Hlast IHlast.
      * destruct (decide (Metric.Series m0 = k)) as [Hk|Hk];
          [|discriminate].
        injection Hlast as <-.
        rewrite (Connect_other_series _ ms k Hrest), Hstep. simpl.
        rewrite Hk, lookup_insert_eq. eauto.
      * apply IHlast.
        destruct (decide (Metric.Series m0 = k)); [|exact Hlast].
        rewrite last_cons in Hlast.
        destruct (last (m1 :: rest)) eqn:Hl; [exact Hlast|].
        apply last_None in Hl. discriminate.
Qed.

(** *** The passthrough of a series *)

Lemma ofSeries_app k ms1 ms2 :
  ofSeries k (ms1 ++ ms2) = ofSeries k ms1 ++ ofSeries k ms2.
Proof. apply filter_app. Qed.

Lemma firstPayload_app_l k ms1 ms2 p :
  firstPayload k ms1 = Some p -> firstPayload k (ms1 ++ ms2) = Some p.
Proof.
  unfold firstPayload. rewrite ofSeries_app.
  destruct (ofSeries k ms1); [discriminate|]. auto.
Qed.

Lemma firstPayload_app_r k ms1 m ms2 :
  ofSeries k ms1 = [] -> Metric.Series m = k ->
  firstPayload k (ms1 ++ m :: ms2) = Some (Metric.Passthrough m).
Proof.
  intros Hnone Hk. unfold firstPayload. rewrite ofSeries_app, Hnone.
  unfold ofSeries. rewrite filter_cons_True by exact Hk. reflexivity.
Qed.

Lemma Connect_tracks ms :
  forall seen f,
  tracks seen f ->
  Forall (fun w => firstPayload (Window.Series w) (seen ++ ms)
                   = Some (Window.Passthrough w)) (snd (Connect f ms)) /\
  tracks (seen ++ ms) (fst (Connect f ms)).
Proof.
  induction ms as [|m0 ms IH]; intros seen f Htr.
  - rewrite app_nil_r. split; [constructor|exact Htr].
  - destruct (Connect_step_shape f m0)
      as (w' & out & Hstep & _ & Hser & Hpass & Hout).
    set (old := default _ (windows f !! Metric.Series m0)) in *.
    assert (Hold : Window.Series old = Metric.Series m0 /\
                   firstPayload (Metric.Series m0) (seen ++ [m0])
                   = Some (Window.Passthrough old)).
    { unfold old. specialize (Htr (Metric.Series m0)).
      destruct (windows f !! Metric.Series m0) as [w|]; simpl.
      - destruct Htr as [Hk Hp]. split; [exact Hk|].
        apply firstPayload_app_l, Hp.
      - split; [reflexivity|]. apply firstPayload_app_r; auto. }
    destruct Hold as [Holdk Holdp].
    assert (Htr1 : tracks (seen ++ [m0]) (fst (Connect_step f m0))).
    { unfold tracks. rewrite Hstep. cbn [fst windows]. intros k.
      rewrite lookup_insert. case_decide as Hk.
      - subst k. rewrite Hser, Hpass. auto.
      - specialize (Htr k). destruct (windows f !! k) as [w|].
        + destruct Htr as [Hwk Hp]. split; [exact Hwk|].
          apply firstPayload_app_l, Hp.
        + rewrite ofSeries_app, Htr. unfold ofSeries.
          rewrite filter_cons_False by exact Hk. reflexivity. }
    destruct (IH (seen ++ [m0]) (fst (Connect_step f m0)) Htr1)
      as [IHout IHtr].
    rewrite <- app_assoc in IHout, IHtr. simpl in IHout, IHtr.
    simpl. rewrite Hstep in *. simpl in *.
    destruct (Connect _ ms) as [f2 out2]. simpl in *.
    split; [|exact IHtr]. apply Forall_app. split; [|exact IHout].
    destruct Hout as [(-> & _)|(c & -> & _ & _ & _ & Hcs & Hcp & _)];
      [constructor|].
    constructor; [|constructor].
    rewrite Hcs, Hcp, Holdk.
    replace (seen ++ m0 :: ms) with ((seen ++ [m0]) ++ ms)
      by (rewrite <- app_assoc; reflexivity).
    apply firstPayload_app_l, Holdp.
Qed.

(** X13. The passthrough of a series is that of its first metric, for
    good: starting without accumulators, every window sent carries the
    passthrough of the first metric of its series in the stream, however
    many windows of that series were sent before, and so does every
    accumulator. *)
Theorem Connect_first_passthrough f ms :
  windows f = ∅ ->
  Forall (fun w => firstPayload (Window.Series w) ms
                   = Some (Window.Passthrough w)) (snd (Connect f ms)) /\
  (forall k w, windows (fst (Connect f ms)) !! k = Some w ->
     Window.Series w = k /\
     firstPayload k ms = Some (Window.Passthrough w)).
Proof.
  intros Hempty.
  destruct (Connect_tracks ms [] f) as [Hout Htr].
  { intros k. rewrite Hempty, lookup_empty. reflexivity. }
  split; [exact Hout|]. intros k w Hw.
  specialize (Htr k). simpl in Htr. rewrite Hw in Htr. exact Htr.
Qed.

(** *** Timestamps in and out of order *)

Lemma Connect_settled ms :
  forall f,
  0 < WindowWidth (config f) ->
  StronglySorted inOrder ms ->
  settled f ms ->
  Forall (fun w => Window.Start w + seconds (WindowWidth (config f))
                   <= Window.End_ w) (snd (Connect f ms)) /\
  settled (fst (Connect f ms)) [].
Proof.
  induction ms as [|m0 ms IH]; intros f Hpos Hsorted Hset.
  - split; [constructor|exact Hset].
  - inversion Hsorted as [|? ? Hsorted' Hhead]; subst.
    destruct (Connect_step_shape f m0)
      as (w' & out & Hstep & Hend & _ & _ & Hout).
    set (old := default _ (windows f !! Metric.Series m0)) in *.
    assert (Hold : is_Some (windows f !! Metric.Series m0) ->
                   Window.Start old <= Window.End_ old /\
                   Window.End_ old <= Metric.Timestamp m0).
    { intros [w Hw]. unfold old. rewrite Hw. simpl.
      destruct (Hset _ _ Hw) as [Hle Hfut]. split; [exact Hle|].
      inversion Hfut; subst; auto. }
    assert (Hfresh : windows f !! Metric.Series m0 = None ->
                     Window.Start old = Metric.Timestamp m0).
    { intros Hnone. unfold old. rewrite Hnone. reflexivity. }
    assert (Hset1 : settled (fst (Connect_step f m0)) ms).
    { rewrite Hstep. intros k w. cbn [fst windows]. rewrite lookup_insert.
      case_decide as Hk.
      - intros [= <-]. subst k. split.
        + rewrite Hend.
          destruct Hout as [(_ & -> & _)|(c & _ & -> & _)]; [|lia].
          destruct (windows f !! Metric.Series m0) as [w|] eqn:Hw.
          * destruct Hold as [? ?]; [eauto|lia].
          * rewrite Hfresh by reflexivity. lia.
        + rewrite Hend. eapply Forall_impl; [exact Hhead|].
          intros m Hm Hser. apply Hm. congruence.
      - intros Hw. destruct (Hset _ _ Hw) as [Hle Hfut].
        split; [exact Hle|]. inversion Hfut; subst; assumption. }
    assert (Hcfg : config (fst (Connect_step f m0)) = config f)
      by (rewrite Hstep; reflexivity).
    destruct (IH (fst (Connect_step f m0))) as [IHout IHset];
      [rewrite Hcfg; exact Hpos|exact Hsorted'|exact Hset1|].
    rewrite Hcfg in IHout.
    simpl. rewrite Hstep in *. cbn [fst] in *.
    destruct (Connect _ ms) as [f2 out2]. cbn [fst snd] in *.
    split; [|exact IHset]. apply Forall_app. split; [|exact IHout].
    destruct Hout as [(-> & _)|(c & -> & _ & Hcs & Hce & _ & _ & Hage)];
      [constructor|].
    constructor; [|constructor]. rewrite Hcs, Hce.
    destruct (windows f !! Metric.Series m0) as [w|] eqn:Hw.
    + destruct Hold as [? ?]; [eauto|lia].
    + exfalso. rewrite Hfresh, Sub_self in Hage by reflexivity.
      change (wholeSeconds 0) with 0 in Hage. lia.
Qed.

(** X14. With a positive width and, within each series, timestamps
    that do not go back, every window sent spans at least the window
    width (its end is at least its start plus the width) and every
    accumulator starts no later than it ends. *)
Theorem Connect_in_order f ms :
  windows f = ∅ ->
  0 < WindowWidth (config f) ->
  StronglySorted inOrder ms ->
  Forall (fun w => Window.Start w + seconds (WindowWidth (config f))
                   <= Window.End_ w) (snd (Connect f ms)) /\
  (forall k w, windows (fst (Connect f ms)) !! k = Some w ->
     Window.Start w <= Window.End_ w).
Proof.
  intros Hempty Hpos Hsorted.
  destruct (Connect_settled ms f Hpos Hsorted) as [Hout Hset].
  { intros k w. rewrite Hempty, lookup_empty. discriminate. }
  split; [exact Hout|]. intros k w Hw. apply (Hset k w Hw).
Qed.

Lemma wholeSeconds_negative (t start : Time) :
  t < start -> wholeSeconds (Sub t start) <= 0.
Proof.
  intros Hlt. unfold wholeSeconds.
  assert (Hneg : Sub t start <= 0).
  { unfold Sub, minDuration, maxDuration.
    destruct (Z.ltb_spec (t - start) (- 2 ^ 63)); [lia|].
    destruct (Z.ltb_spec (2 ^ 63 - 1) (t - start)); lia. }
  apply Z.le_trans with (0 ÷ Second).
  - apply Z.quot_le_mono; [unfold Second; lia|exact Hneg].
  - reflexivity.
Qed.

(** X15. A metric older than the start of its series' accumulator is
    neither rejected nor does it close the window: with a positive width
    it is added to the sum, and the accumulator's end goes back to the
    metric's timestamp, before the accumulator's start. *)
Theorem Connect_step_out_of_order f k w m :
  windows f !! k = Some w ->
  Metric.Series m = k ->
  0 < WindowWidth (config f) ->
  Metric.Timestamp m < Window.Start w ->
  exists w',
    Connect_step f m =
      ({| windows := <[k := w']> (windows f); config := config f |}, []) /\
    Window.Start w' = Window.Start w /\
    Window.End_ w' = Metric.Timestamp m /\
    Window.Value w' = (Window.Value w + Metric.Value m)%float /\
    Window.End_ w' < Window.Start w'.
Proof.
  intros Hw Hk Hpos Hold.
  exists (accumulate w [m]). split.
  - apply Connect_step_within; [exact Hw|]. split; [exact Hk|].
    pose proof (wholeSeconds_negative _ _ Hold). lia.
  - repeat split. exact Hold.
Qed.

End WindowFilter_more.

(** ** More on the bin filter *)

Section BinFilter_more.
Context {Payload : Type}.
Implicit Types (f : BinFilter.t) (s : AnomalousSpan Payload) (b : Bin).

Import BinFilter.

(** Whenever the loop ends, it ends with the bin starts that
    [spanToBins_loop_spec] describes. *)
Lemma spanToBins_loop_Some (d spanEnd : Z) :
  0 < d ->
  forall fuel (now : Time) acc l,
  spanToBins_loop fuel d spanEnd now acc = Some l ->
  exists n : nat,
    (forall i : nat, (i < n)%nat <-> now + Z.of_nat i * d <= spanEnd) /\
    l = acc ++ ((fun i : nat => now + Z.of_nat i * d) <$> seq 0 n).
Proof.
  intros Hd. induction fuel as [|fuel IH]; intros now acc l; [discriminate|].
  simpl. destruct (After now spanEnd) eqn:Hafter; simpl.
  - intros [= <-]. exists 0%nat. rewrite app_nil_r. split; [|reflexivity].
    apply After_spec in Hafter. intros i. split; [lia|nia].
  - intros Hrest. apply After_false in Hafter.
    destruct (IH _ _ _ Hrest) as (n & Hn & ->).
    exists (S n). split.
    + intros [|i]; [lia|]. specialize (Hn i). unfold Add in Hn. lia.
    + rewrite <- app_assoc. simpl. f_equal. f_equal; [lia|].
      change (list_fmap nat Z ?g ?l) with (g <$> l).
      rewrite <- fmap_S_seq, <- list_fmap_compose.
      apply list_fmap_ext. intros _ i _. unfold Add. simpl. lia.
Qed.

(** What one span does to the bins, for a positive width: the bins it
    meets, on the grid, get one more count and its series; every other
    bin is left alone; the snapshots sent are on the grid. *)
Lemma Connect_span_meets fuel f s f' out :
  0 < binWidth f ->
  Connect_span fuel f s = Some (f', out) ->
  config f' = config f /\
  Forall (fun b => exists binTime,
            b = snapshot (span.Series s) f binTime /\
            binTime mod binWidth f = 0) out /\
  (forall binTime : Time,
     bins f' !! binTime =
     if decide (binTime mod binWidth f = 0 /\
                meets (binWidth f) binTime (span.Start s) (span.End_ s))
     then Some (snapshot (span.Series s) f binTime)
     else bins f !! binTime).
Proof.
  intros Hd. unfold Connect_span, spanToBins.
  destruct (spanToBins_loop _ _ _ _ _) as [l|] eqn:Hloop; [|discriminate].
  destruct (spanToBins_loop_Some _ _ Hd _ _ _ _ Hloop) as (n & Hn & ->).
  simpl. intros Hrun.
  destruct (touches _ f _) as [f1 out1] eqn:Ht.
  injection Hrun as <- <-.
  destruct (touches_spec _ _ (bin_starts_NoDup _ _ n Hd) f f1 out1 Ht)
    as (-> & Hcfg & Hbins).
  destruct (Truncate_pos (span.Start s) (binWidth f) Hd) as [Htr Hbound].
  assert (Hin : forall binTime : Time,
            binTime ∈ (fun i : nat =>
                         Truncate (span.Start s) (binWidth f)
                         + Z.of_nat i * binWidth f) <$> seq 0 n
            <-> binTime mod binWidth f = 0 /\
                meets (binWidth f) binTime (span.Start s) (span.End_ s)).
  { intros binTime.
    rewrite (bin_starts_elem _ _ (span.End_ s) n binTime Hd Hn).
    unfold meets. split.
    - intros (i & Hi & -> & Hle). rewrite Htr.
      split; [|split; [nia|lia]].
      replace (binWidth f * (span.Start s / binWidth f) + i * binWidth f)
        with ((span.Start s / binWidth f + i) * binWidth f) by lia.
      apply Z.mod_mul. lia.
    - intros (Hmod & Hlt & Hle).
      apply Z.mod_divide in Hmod as [q Hq]; [|lia].
      exists (q - span.Start s / binWidth f).
      rewrite Htr in *. subst binTime. split; [nia|]. split; [lia|].
      lia. }
  split; [exact Hcfg|]. split.
  - apply Forall_fmap, Forall_forall. intros binTime Hel. simpl.
    exists binTime. split; [reflexivity|]. apply Hin, Hel.
  - intros binTime. rewrite Hbins.
    destruct (decide (binTime ∈ _)) as [Hel|Hel].
    + rewrite decide_True by (apply Hin, Hel). reflexivity.
    + rewrite decide_False; [reflexivity|]. intros H. apply Hel, Hin, H.
Qed.

(** *** The grid *)

Lemma snapshot_on_grid series f (binTime : Time) :
  bins_on_grid f -> binTime mod binWidth f = 0 ->
  Bin.Start (snapshot series f binTime) = binTime /\
  on_grid (binWidth f) (snapshot series f binTime).
Proof.
  intros Hgrid Hmod. unfold snapshot, current, on_grid. simpl.
  destruct (bins f !! binTime) as [b|] eqn:Hb; simpl.
  - destruct (Hgrid _ _ Hb) as [Hstart [Hm He]]. rewrite Hstart in *. auto.
  - auto.
Qed.

Lemma Connect_grid fuel (ss : list (AnomalousSpan Payload)) :
  forall f f' out,
  0 < binWidth f ->
  bins_on_grid f ->
  Connect fuel f ss = Some (f', out) ->
  Forall (on_grid (binWidth f)) out /\ bins_on_grid f' /\
  config f' = config f.
Proof.
  induction ss as [|s ss IH]; intros f f' out Hd Hgrid; simpl.
  - intros [= <- <-]. auto.
  - destruct (Connect_span fuel f s) as [[f1 out1]|] eqn:Hspan;
      [|discriminate].
    destruct (Connect fuel f1 ss) as [[f2 out2]|] eqn:Hrest; [|discriminate].
    intros [= <- <-].
    destruct (Connect_span_meets fuel f s f1 out1 Hd Hspan)
      as (Hcfg & Hout1 & Hbins).
    assert (Hw : binWidth f1 = binWidth f) by (unfold binWidth; congruence).
    assert (Hgrid1 : bins_on_grid f1).
    { intros t b. rewrite Hbins, Hw. case_decide as Hc; [|apply Hgrid].
      intros [= <-]. apply snapshot_on_grid; tauto. }
    destruct (IH f1 f2 out2) as (Hout2 & Hgrid2 & Hcfg2);
      [rewrite Hw; exact Hd|exact Hgrid1|exact Hrest|].
    rewrite Hw in Hout2.
    split; [|split; [exact Hgrid2|congruence]].
    apply Forall_app. split; [|exact Hout2].
    eapply Forall_impl; [exact Hout1|]. simpl.
    intros b (t & -> & Hmod). apply snapshot_on_grid; assumption.
Qed.

(** X16. Bins do not drift: with a positive width, every snapshot sent
    since [Init] starts at a multiple of the width (counted from the zero
    Time) and is one width long, and every stored bin is stored under its
    start. *)
Theorem Connect_bins_on_grid cfg f0 fuel
  (ss : list (AnomalousSpan Payload)) f out :
  Init cfg = Ok f0 ->
  0 < binWidth f0 ->
  Connect fuel f0 ss = Some (f, out) ->
  Forall (on_grid (binWidth f0)) out /\
  (forall (binTime : Time) b, bins f !! binTime = Some b ->
     Bin.Start b = binTime /\ on_grid (binWidth f0) b).
Proof.
  intros Hinit Hd Hrun.
  destruct (Connect_grid fuel ss f0 f out Hd) as (Hout & Hgrid & Hcfg);
    [|exact Hrun|].
  { revert Hinit. unfold Init. destruct (BinWidth cfg <=? 0); [discriminate|].
    intros [= <-] t b. simpl. rewrite lookup_empty. discriminate. }
  split; [exact Hout|]. intros t b Hb.
  replace (binWidth f0) with (binWidth f) by (unfold binWidth; congruence).
  apply Hgrid, Hb.
Qed.

(** *** What a bin counts *)

Lemma Connect_counts fuel (ss : list (AnomalousSpan Payload))
  (binTime : Time) :
  forall f f' out,
  0 < binWidth f ->
  Connect fuel f ss = Some (f', out) ->
  let hits :=
    filter (fun s => meets (binWidth f) binTime (span.Start s) (span.End_ s))
      ss in
  config f' = config f /\
  (binTime mod binWidth f <> 0 \/ hits = [] ->
   bins f' !! binTime = bins f !! binTime) /\
  (binTime mod binWidth f = 0 -> hits <> [] ->
   exists b, bins f' !! binTime = Some b /\
     Bin.Entries b = Bin.Entries (current f binTime) ++ (span.Series <$> hits) /\
     Bin.Count b = Bin.Count (current f binTime) + Z.of_nat (length hits)).
Proof.
  induction ss as [|s ss IH]; intros f f' out Hd; simpl.
  - intros [= <- <-]. split; [reflexivity|]. split; [reflexivity|].
    intros _ Hne. contradiction.
  - destruct (Connect_span fuel f s) as [[f1 out1]|] eqn:Hspan;
      [|discriminate].
    destruct (Connect fuel f1 ss) as [[f2 out2]|] eqn:Hrest; [|discriminate].
    intros [= <- <-].
    destruct (Connect_span_meets fuel f s f1 out1 Hd Hspan)
      as (Hcfg & _ & Hbins).
    assert (Hw : binWidth f1 = binWidth f) by (unfold binWidth; congruence).
    destruct (IH f1 f2 out2) as (Hcfg2 & HA & HB);
      [rewrite Hw; exact Hd|exact Hrest|].
    rewrite Hw in HA, HB. specialize (Hbins binTime).
    cbv zeta in *. rewrite filter_cons.
    remember (filter (fun s0 => meets (binWidth f) binTime (span.Start s0)
                                  (span.End_ s0)) ss) as rest eqn:Heq in *.
    clear Heq.
    split; [congruence|].
    destruct (decide (meets (binWidth f) binTime (span.Start s)
                        (span.End_ s))) as [Hmeets|Hmeets].
    + split; [intros [Hmod|?]; [|discriminate]|intros Hmod _].
      * rewrite HA by (left; exact Hmod). rewrite Hbins.
        rewrite decide_False by tauto. reflexivity.
      * rewrite decide_True in Hbins by tauto.
        assert (Hcur : current f1 binTime
                       = snapshot (span.Series s) f binTime).
        { unfold current at 1. rewrite Hbins. reflexivity. }
        destruct rest as [|s1 rest'].
        -- exists (snapshot (span.Series s) f binTime).
           rewrite HA by (right; reflexivity).
           split; [exact Hbins|]. simpl. split; [reflexivity|lia].
        -- destruct HB as (b & Hb & He & Hc); [exact Hmod|discriminate|].
           exists b. split; [exact Hb|]. rewrite He, Hc, Hcur. simpl.
           rewrite <- app_assoc. split; [reflexivity|lia].
    + rewrite decide_False in Hbins by tauto.
      assert (Hcur : current f1 binTime = current f binTime).
      { unfold current. rewrite Hbins, Hw. reflexivity. }
      split.
      * intros H. rewrite HA by exact H. exact Hbins.
      * intros Hmod Hne. destruct (HB Hmod Hne) as (b & Hb & He & Hc).
        exists b. rewrite He, Hc, Hcur. auto.
Qed.

(** Spans whose starts are all in one Location, from [Init]: the bin
    that starts at a multiple [binTime] of the width lists the series of
    the spans that meet [binTime, binTime + width), in the order the spans
    arrived. *)
Lemma Connect_counts_Init cfg f0 fuel
  (ss : list (AnomalousSpan Payload)) f out (binTime : Time) :
  Init cfg = Ok f0 ->
  0 < binWidth f0 ->
  Connect fuel f0 ss = Some (f, out) ->
  let hits :=
    filter (fun s => meets (binWidth f0) binTime (span.Start s)
                       (span.End_ s)) ss in
  (binTime mod binWidth f0 <> 0 \/ hits = [] -> bins f !! binTime = None) /\
  (binTime mod binWidth f0 = 0 -> hits <> [] ->
   exists b, bins f !! binTime = Some b /\
     Bin.Entries b = span.Series <$> hits /\
     Bin.Count b = Z.of_nat (length hits)).
Proof.
  intros Hinit Hd Hrun hits.
  assert (Hempty : bins f0 = ∅).
  { revert Hinit. unfold Init. destruct (BinWidth cfg <=? 0); [discriminate|].
    intros [= <-]. reflexivity. }
  destruct (Connect_counts fuel ss binTime f0 f out Hd Hrun)
    as (_ & HA & HB).
  split.
  - intros H. rewrite (HA H), Hempty. apply lookup_empty.
  - intros Hmod Hne. destruct (HB Hmod Hne) as (b & Hb & He & Hc).
    exists b. split; [exact Hb|].
    unfold current in He, Hc. rewrite Hempty, lookup_empty in He, Hc.
    simpl in He, Hc. split; [exact He|exact Hc].
Qed.

(** *** Spans and widths the loop cannot handle *)

(** X18. [Init] checks the width in seconds, the loop steps by the width
    as a Duration.  When the Duration is not positive (the product with
    a second overflows), the loop of [spanToBins] never ends for a span
    that starts no later than it ends: however many times its condition
    is tested, no list of bins is returned. *)
Theorem spanToBins_never_ends f s :
  binWidth f <= 0 ->
  span.Start s <= span.End_ s ->
  forall fuel, spanToBins fuel f s = None.
Proof.
  intros Hd Hle fuel. unfold spanToBins, Truncate.
  destruct (Z.leb_spec (binWidth f) 0) as [_|?]; [|lia].
  generalize (@nil Time). revert Hle. generalize (span.Start s) as now.
  induction fuel as [|fuel IH]; intros now Hle acc; [reflexivity|].
  simpl. assert (After now (span.End_ s) = false) as ->
    by (apply After_false; exact Hle).
  simpl. apply IH. unfold Add. lia.
Qed.

(** X19. A span that ends before the bin of its start begins touches
    nothing: no bin is created or counted and nothing is sent. *)
Theorem Connect_span_inverted fuel f s :
  span.End_ s < Truncate (span.Start s) (binWidth f) ->
  Connect_span (S fuel) f s = Some (f, []).
Proof.
  intros Hlt. unfold Connect_span, spanToBins. simpl.
  assert (After (Truncate (span.Start s) (binWidth f)) (span.End_ s) = true)
    as -> by (apply After_spec; exact Hlt).
  reflexivity.
Qed.

End BinFilter_more.

(** ** The bin filter and Locations *)

Section BinFilter_Located.
Context {Payload : Type}.
Implicit Types (F : BinFilter.Located.t) (f : BinFilter.t)
  (s : AnomalousSpan Payload) (loc : BinFilter.Location).

Import BinFilter.

(** *** One Location at a time

    A touch in the Location [loc] does to the bins of [loc] what the
    touch by instants does; a touch in another Location leaves them
    alone. *)

Lemma Located_touch_same series loc F f (binTime : Time) :
  Located.slice loc F f ->
  snd (Located.touch series loc F binTime) = snd (touch series f binTime) /\
  Located.slice loc (fst (Located.touch series loc F binTime))
    (fst (touch series f binTime)).
Proof.
  intros [Hc Hb].
  unfold Located.touch, touch, Located.binWidth, binWidth.
  rewrite Hb, Hc. cbn [fst snd]. split; [reflexivity|].
  split; [reflexivity|]. intros t. cbn [Located.bins bins].
  destruct (decide (t = binTime)) as [->|Hne].
  - rewrite !lookup_insert_eq. reflexivity.
  - rewrite !lookup_insert_ne by congruence. apply Hb.
Qed.

Lemma Located_touch_other series loc loc' F f (binTime : Time) :
  loc' <> loc ->
  Located.slice loc F f ->
  Located.slice loc (fst (Located.touch series loc' F binTime)) f.
Proof.
  intros Hne [Hc Hb]. split; [exact Hc|]. intros t.
  cbn [Located.touch fst Located.bins].
  rewrite lookup_insert_ne by congruence. apply Hb.
Qed.

Lemma Located_touches_same series loc (binTimes : list Time) :
  forall F f,
  Located.slice loc F f ->
  snd (Located.touches series loc F binTimes)
    = snd (touches series f binTimes) /\
  Located.slice loc (fst (Located.touches series loc F binTimes))
    (fst (touches series f binTimes)).
Proof.
  induction binTimes as [|t0 rest IH]; intros F f Hs.
  - split; [reflexivity|exact Hs].
  - destruct (Located_touch_same series loc F f t0 Hs) as [Hb Hs1].
    cbn [Located.touches touches].
    destruct (Located.touch series loc F t0) as [F1 b].
    destruct (touch series f t0) as [f1 b'].
    cbn [fst snd] in Hb, Hs1. subst b'.
    destruct (IH F1 f1 Hs1) as [Hout Hs2].
    destruct (Located.touches series loc F1 rest) as [F2 out].
    destruct (touches series f1 rest) as [f2 out'].
    cbn [fst snd] in *. subst out'. split; [reflexivity|exact Hs2].
Qed.

Lemma Located_touches_other series loc loc' (binTimes : list Time) :
  loc' <> loc ->
  forall F f,
  Located.slice loc F f ->
  Located.slice loc (fst (Located.touches series loc' F binTimes)) f.
Proof.
  intros Hne. induction binTimes as [|t0 rest IH]; intros F f Hs.
  - exact Hs.
  - pose proof (Located_touch_other series loc loc' F f t0 Hne Hs) as Hs1.
    cbn [Located.touches].
    destruct (Located.touch series loc' F t0) as [F1 b].
    specialize (IH F1 f Hs1).
    destruct (Located.touches series loc' F1 rest) as [F2 out].
    exact IH.
Qed.

Lemma Located_touches_config series loc (binTimes : list Time) :
  forall F,
  Located.config (fst (Located.touches series loc F binTimes))
  = Located.config F.
Proof.
  induction binTimes as [|t0 rest IH]; intros F; [reflexivity|].
  cbn [Located.touches].
  destruct (Located.touch series loc F t0) as [F1 b] eqn:Ht.
  specialize (IH F1).
  destruct (Located.touches series loc F1 rest) as [F2 out].
  cbn [fst] in *. rewrite IH.
  unfold Located.touch in Ht. injection Ht as <- _. reflexivity.
Qed.

(** The bins of one Location after a run are those the filter by
    instants holds after the spans of that Location. *)
Lemma Located_Connect_slice loc fuel
  (ss : list (Location * AnomalousSpan Payload)) :
  forall F f F' out,
  Located.slice loc F f ->
  Located.Connect fuel F ss = Some (F', out) ->
  exists f' out',
    Connect fuel f (Located.inLocation loc ss) = Some (f', out') /\
    Located.slice loc F' f'.
Proof.
  induction ss as [|[loc' s] ss IH]; intros F f F' out Hs.
  - intros [= <- <-]. exists f, []. split; [reflexivity|exact Hs].
  - cbn [Located.Connect].
    destruct (Located.Connect_span fuel F (loc', s)) as [[F1 out1]|] eqn:Hspan;
      [|discriminate].
    destruct (Located.Connect fuel F1 ss) as [[F2 out2]|] eqn:Hrest;
      [|discriminate].
    intros [= <- <-].
    unfold Located.Connect_span, Located.spanToBins in Hspan.
    cbn [fst snd] in Hspan.
    destruct (spanToBins_loop _ _ _ _ _) as [binTimes|] eqn:Hloop;
      [|discriminate].
    injection Hspan as Hspan.
    unfold Located.inLocation. rewrite filter_cons. cbn [fst].
    destruct (decide (loc' = loc)) as [->|Hne].
    + destruct (Located_touches_same (span.Series s) loc binTimes F f Hs)
        as [_ Hs1].
      rewrite Hspan in Hs1. cbn [fst] in Hs1.
      destruct (IH F1 _ F2 out2 Hs1 Hrest) as (f' & out' & Hrun & Hs2).
      cbn [fmap list_fmap Connect snd]. unfold Connect_span, spanToBins.
      replace (binWidth f) with (Located.binWidth F)
        by (unfold binWidth, Located.binWidth; rewrite (proj1 Hs);
            reflexivity).
      rewrite Hloop.
      destruct (touches (span.Series s) f binTimes) as [f1 o1].
      cbn [fst] in Hrun.
      unfold Located.inLocation in Hrun.
      change (list_fmap _ _ snd ?l) with (snd <$> l).
      rewrite Hrun. eauto.
    + pose proof (Located_touches_other (span.Series s) loc loc' binTimes
                    Hne F f Hs) as Hs1.
      rewrite Hspan in Hs1. cbn [fst] in Hs1.
      exact (IH F1 f F2 out2 Hs1 Hrest).
Qed.

(** *** The run ends *)

Lemma spanToBins_loop_ends (d : Z) (ss : list (AnomalousSpan Payload)) :
  0 < d ->
  exists n : nat, forall fuel, (n <= fuel)%nat ->
    Forall (fun s => is_Some (spanToBins_loop fuel d (span.End_ s)
                                (Truncate (span.Start s) d) [])) ss.
Proof.
  intros Hd. induction ss as [|s ss IH].
  - exists 0%nat. intros fuel _. constructor.
  - destruct IH as [n IH].
    destruct (bin_count_exists d (Truncate (span.Start s) d)
                (span.End_ s) Hd) as [m Hm].
    exists (Nat.max (S m) n). intros fuel Hfuel. constructor.
    + rewrite (spanToBins_loop_spec d (span.End_ s) m Hd _ [] fuel Hm)
        by lia.
      eauto.
    + apply IH. lia.
Qed.

Lemma Located_Connect_returns fuel
  (ss : list (Location * AnomalousSpan Payload)) :
  forall F,
  Forall (fun s => is_Some (spanToBins_loop fuel (Located.binWidth F)
                              (span.End_ s)
                              (Truncate (span.Start s) (Located.binWidth F))
                              [])) (snd <$> ss) ->
  exists F' out, Located.Connect fuel F ss = Some (F', out).
Proof.
  induction ss as [|[loc s] ss IH]; intros F Hall.
  - eauto.
  - apply Forall_cons in Hall as [[binTimes Hloop] Hall].
    cbn [snd] in Hloop.
    cbn [Located.Connect]. unfold Located.Connect_span, Located.spanToBins.
    cbn [fst snd]. rewrite Hloop.
    pose proof (Located_touches_config (span.Series s) loc binTimes F) as Hc.
    destruct (Located.touches (span.Series s) loc F binTimes) as [F1 out1].
    cbn [fst] in Hc.
    destruct (IH F1) as (F2 & out2 & ->); [|eauto].
    unfold Located.binWidth in *. rewrite Hc. exact Hall.
Qed.

(** X17. What a bin counts.  A bin is filed under the instant and the
    Location of its start.  With a positive width the run from [Init]
    ends on every list of spans (enough tests of the loop condition give
    a result), and then the bin at a multiple [binTime] of the width, in
    the Location [loc], lists the series of exactly the spans whose start
    is in [loc] and that meet [binTime, binTime + width), in the order the
    spans arrived, and its count is their number; where no such span
    exists, or off the grid, there is no bin. *)
Theorem Connect_bin_counts_spans cfg F0
  (ss : list (Location * AnomalousSpan Payload)) (binTime : Time) loc :
  Located.Init cfg = Ok F0 ->
  0 < Located.binWidth F0 ->
  exists n : nat, forall fuel, (n <= fuel)%nat ->
    exists F out,
      Located.Connect fuel F0 ss = Some (F, out) /\
      let hits :=
        filter (fun s => meets (Located.binWidth F0) binTime (span.Start s)
                           (span.End_ s)) (Located.inLocation loc ss) in
      (binTime mod Located.binWidth F0 <> 0 \/ hits = [] ->
       Located.bins F !! (binTime, loc) = None) /\
      (binTime mod Located.binWidth F0 = 0 -> hits <> [] ->
       exists b, Located.bins F !! (binTime, loc) = Some b /\
         Bin.Entries b = span.Series <$> hits /\
         Bin.Count b = Z.of_nat (length hits)).
Proof.
  intros Hinit Hd.
  assert (HF0 : F0 = {| Located.bins := ∅; Located.config := cfg |}).
  { revert Hinit. unfold Located.Init.
    destruct (BinWidth cfg <=? 0) eqn:Hw; [discriminate|].
    intros [= <-]. reflexivity. }
  assert (Hf0 : Init cfg = Ok {| bins := ∅; config := cfg |}).
  { revert Hinit. unfold Located.Init, Init.
    destruct (BinWidth cfg <=? 0); [discriminate|]. reflexivity. }
  assert (Hs0 : Located.slice loc F0 {| bins := ∅; config := cfg |}).
  { subst F0. split; [reflexivity|]. intros t. cbn [Located.bins bins].
    rewrite !lookup_empty. reflexivity. }
  assert (Hw : binWidth {| bins := ∅; config := cfg |}
               = Located.binWidth F0) by (subst F0; reflexivity).
  destruct (spanToBins_loop_ends (Located.binWidth F0) (snd <$> ss) Hd)
    as [n Hn].
  exists n. intros fuel Hfuel.
  destruct (Located_Connect_returns fuel ss F0 (Hn fuel Hfuel))
    as (F & out & Hrun).
  exists F, out. split; [exact Hrun|].
  destruct (Located_Connect_slice loc fuel ss F0 _ F out Hs0 Hrun)
    as (f' & out' & Hrun' & [_ Hbins]).
  rewrite <- Hw in Hd.
  pose proof (Connect_counts_Init cfg _ fuel (Located.inLocation loc ss)
                f' out' binTime Hf0 Hd Hrun') as Hcount.
  cbv zeta in Hcount. rewrite Hw in Hcount. cbv zeta.
  rewrite Hbins. exact Hcount.
Qed.

End BinFilter_Located.

(** ** The further properties at work on sample data *)

(** X5 at work: the two spans sent in the C1 sample are stamped. *)
Lemma Connect_sends_stamped_witness :
  let run : option (gatherFilter.t unit * list (span unit)) :=
    gatherFilter.Connect (Sample.gatherer ∅)
      [Sample.rule 0 30 true 3%float; Sample.rule 30 60 true 1.5%float;
       Sample.rule 60 90 true (-2)%float; Sample.rule 90 120 true (-0.5)%float;
       Sample.rule 120 150 true 4%float] in
  (fun p : gatherFilter.t unit * list (span unit) => length (snd p)) <$> run
    = Some 2%nat /\
  Forall (gatherFilter.stamped Sample.sum) (default [] (snd <$> run)).
Proof.
  intros run. split; [reflexivity|].
  destruct run as [[f' out]|] eqn:Hrun; [|constructor].
  exact (Connect_sends_stamped (Sample.gatherer ∅) _ f' out
           spans_wf_empty Hrun).
Defined.

(** X6 at work: two rulings that are not anomalous, on an empty cache. *)
Lemma Connect_no_anomaly_witness :
  snd <$> gatherFilter.Connect (Sample.gatherer ∅)
            [Sample.rule 0 30 false 3%float; Sample.rule 30 60 false 1%float]
  = Some [].
Proof.
  destruct (Connect_no_anomaly (Sample.gatherer ∅)
              [Sample.rule 0 30 false 3%float; Sample.rule 30 60 false 1%float])
    as (f' & Hrun & _).
  - reflexivity.
  - reflexivity.
  - repeat constructor.
  - rewrite Hrun. reflexivity.
Defined.

(** X7 at work: the span of series A ended at second 30 and expired at
    second 90; an anomalous ruling for the seconds 200 to 230 extends it
    to second 230. *)
Lemma Connect_step_revives_witness :
  (fun p : gatherFilter.t unit * list (span unit) =>
     (span.End_ <$> gatherFilter.spans (gatherFilter.cache (fst p))
                      !! "A"%string, snd p))
  <$> gatherFilter.Connect_step
        (Sample.gatherer {[ "A"%string := Sample.open_span 0 30 [3%float] ]})
        (Sample.rule 200 230 true 1%float)
  = Some (Some (230 * Second), []).
Proof.
  destruct (Connect_step_revives
              (Sample.gatherer
                 {[ "A"%string := Sample.open_span 0 30 [3%float] ]})
              "A"%string (Sample.open_span 0 30 [3%float]) 3%float []
              (Sample.rule 200 230 true 1%float) 1%float)
    as (f' & s' & Hstep & Hs' & -> & _).
  - reflexivity.
  - reflexivity.
  - repeat split.
  - reflexivity.
  - reflexivity.
  - rewrite Hstep. simpl. rewrite Hs'. reflexivity.
Defined.

(** X8 at work: after the change of sign series A has a span and no
    last-seen time. *)
Lemma Connect_step_flip_forgets_now_witness :
  (fun p : gatherFilter.t unit * list (span unit) =>
     (span.Values <$> gatherFilter.spans (gatherFilter.cache (fst p))
                        !! "A"%string,
      gatherFilter.nows (gatherFilter.cache (fst p)) !! "A"%string))
  <$> gatherFilter.Connect_step
        (Sample.gatherer {[ "A"%string := Sample.open_span 0 30 [3%float] ]})
        (Sample.rule 30 60 true (-2)%float)
  = Some (Some [(-2)%float], None).
Proof.
  destruct (Connect_step_flip_forgets_now
              (Sample.gatherer
                 {[ "A"%string := Sample.open_span 0 30 [3%float] ]})
              (Sample.rule 30 60 true (-2)%float)
              (Sample.open_span 0 30 [3%float]) 3%float [] (-2)%float)
    as (f' & out & Hstep & Hs & Hn); [reflexivity..|].
  rewrite Hstep. simpl in *. rewrite Hs, Hn. reflexivity.
Defined.

(** X9 at work: the magnitude 0.5 of the ruling that finds the span
    expired is neither in the span sent nor in the span opened next. *)
Lemma Connect_expiry_drops_magnitude_witness :
  (fun p : gatherFilter.t unit * list (span unit) =>
     (span.Values <$> gatherFilter.spans (gatherFilter.cache (fst p))
                        !! "A"%string,
      span.Values <$> snd p))
  <$> gatherFilter.Connect
        (Sample.gatherer {[ "A"%string := Sample.open_span 0 30 [3%float] ]})
        [Sample.rule 200 230 false 0.5%float; Sample.rule 230 260 true 7%float]
  = Some (Some [7%float], [[3%float]]).
Proof.
  destruct (Connect_expiry_drops_magnitude
              (Sample.gatherer
                 {[ "A"%string := Sample.open_span 0 30 [3%float] ]})
              "A"%string (Sample.open_span 0 30 [3%float])
              (Sample.rule 200 230 false 0.5%float) 0.5%float
              (Sample.rule 230 260 true 7%float) 7%float)
    as (f' & Hrun & Hs);
    [reflexivity|reflexivity|reflexivity|reflexivity|reflexivity|reflexivity
    |repeat split|].
  rewrite Hrun. simpl. rewrite Hs. reflexivity.
Defined.

(** X11 at work: a filter set up by [Init] for today, fed the C1
    sample. *)
Lemma Connect_after_Init_witness :
  let cfg :=
    {| gatherFilter.Disabled := false; gatherFilter.SpanWidth := 60;
       gatherFilter.Statistic := "Mean";
       gatherFilter.ValueField := "normed";
       gatherFilter.LastDate := "today" |} in
  let f :=
    fst (gatherFilter.Init Sample.sum Sample.mean Sample.sum Sample.sum
           Sample.sum (fun _ => Err "cannot parse"%string)
           (1000000 * Second) (Sample.gatherer ∅) cfg) in
  gatherFilter.lastDate f = 1000000 * Second /\
  is_Some (gatherFilter.Connect f
             [Sample.rule 0 30 true 3%float;
              Sample.rule 30 60 true (-2)%float;
              Sample.rule 60 90 false 1%float]).
Proof.
  intros cfg f.
  destruct (Connect_after_Init Sample.sum Sample.mean Sample.sum Sample.sum
              Sample.sum (fun _ => Err "cannot parse"%string)
              (1000000 * Second) (Sample.gatherer ∅) cfg f
              [Sample.rule 0 30 true 3%float;
               Sample.rule 30 60 true (-2)%float;
               Sample.rule 60 90 false 1%float])
    as (_ & _ & _ & Htoday & _ & _ & f' & out & Hrun & _).
  - reflexivity.
  - reflexivity.
  - reflexivity.
  - split; [apply Htoday; reflexivity|]. rewrite Hrun. eauto.
Defined.

(** X21 at work: [Init] accepts a configuration whose value field is
    the ruling's [Anomalous] flag; the first ruling then ends the run. *)
Lemma Connect_after_Init_panics_witness :
  let cfg :=
    {| gatherFilter.Disabled := false; gatherFilter.SpanWidth := 60;
       gatherFilter.Statistic := "Mean";
       gatherFilter.ValueField := "Anomalous";
       gatherFilter.LastDate := "today" |} in
  let init :=
    gatherFilter.Init Sample.sum Sample.mean Sample.sum Sample.sum
      Sample.sum (fun _ => Err "cannot parse"%string)
      (1000000 * Second) (Sample.gatherer ∅) cfg in
  snd init = None /\
  gatherFilter.Connect (fst init)
    [Sample.rule 0 30 false 3%float; Sample.rule 30 60 true 1%float] = None.
Proof.
  intros cfg init. split; [reflexivity|].
  exact (proj2 (Connect_after_Init_panics Sample.sum Sample.mean Sample.sum
                  Sample.sum Sample.sum (fun _ => Err "cannot parse"%string)
                  (1000000 * Second) (Sample.gatherer ∅) cfg (fst init)
                  (Sample.rule 0 30 false 3%float)
                  [Sample.rule 30 60 true 1%float]
                  eq_refl eq_refl eq_refl)).
Defined.

(** Series are independent, at work: rulings of series B between those
    of series A. *)
Lemma Connect_series_independent_witness :
  exists f' g' out,
    gatherFilter.Connect (Sample.gatherer ∅)
      [Sample.rule 0 30 true 3%float; Sample.rule_B 0 30 true 1%float;
       Sample.rule_B 30 60 true (-1)%float;
       Sample.rule 30 60 true (-2)%float] = Some (f', out) /\
    gatherFilter.Connect (Sample.gatherer ∅)
      [Sample.rule 0 30 true 3%float; Sample.rule 30 60 true (-2)%float]
      = Some (g', filter (fun s => span.Series s = "A"%string) out) /\
    gatherFilter.agree "A" f' g'.
Proof.
  apply (Connect_series_independent "A"%string
           [Sample.rule 0 30 true 3%float; Sample.rule_B 0 30 true 1%float;
            Sample.rule_B 30 60 true (-1)%float;
            Sample.rule 30 60 true (-2)%float]
           (Sample.gatherer ∅) (Sample.gatherer ∅)).
  - apply spans_wf_empty.
  - apply spans_wf_empty.
  - repeat split.
  - reflexivity.
Defined.

(** X13 at work: four metrics of series A with four different
    passthroughs; both windows sent carry the first. *)
Lemma Connect_first_passthrough_witness :
  let ms :=
    [Sample.metric "A" 0 1%float "first"; Sample.metric "A" 10 1%float "second";
     Sample.metric "A" 35 1%float "third"; Sample.metric "A" 70 1%float "fourth"] in
  Window.Passthrough <$> snd (WindowFilter.Connect Sample.windower ms)
    = ["first"%string; "first"%string] /\
  Forall (fun w => WindowFilter.firstPayload (Window.Series w) ms
                   = Some (Window.Passthrough w))
    (snd (WindowFilter.Connect Sample.windower ms)).
Proof.
  intros ms. split; [reflexivity|].
  exact (proj1 (Connect_first_passthrough Sample.windower ms eq_refl)).
Defined.

(** X14 at work: metrics of series A at seconds 0, 10, 35 and 70, with
    one of series B in between; the windows sent end at seconds 40 and
    65. *)
Lemma Connect_in_order_witness :
  let ms :=
    [Sample.metric "A" 0 1%float "a"; Sample.metric "A" 10 1%float "a";
     Sample.metric "B" 5 1%float "b"; Sample.metric "A" 35 1%float "a";
     Sample.metric "A" 70 1%float "a"] in
  (fun w => (Window.Start w, Window.End_ w))
    <$> snd (WindowFilter.Connect Sample.windower ms)
    = [(0, 40 * Second); (35 * Second, 65 * Second)] /\
  Forall (fun w => Window.Start w + seconds 30 <= Window.End_ w)
    (snd (WindowFilter.Connect Sample.windower ms)).
Proof.
  intros ms. split; [reflexivity|].
  apply (Connect_in_order Sample.windower ms).
  - reflexivity.
  - reflexivity.
  - repeat first [apply SSorted_nil | apply SSorted_cons
                 | apply List.Forall_nil | apply List.Forall_cons];
      intros Hser; solve [discriminate Hser
                         | apply Z.leb_le; vm_compute; reflexivity].
Defined.

(** X15 at work: an accumulator of series A that started at second 100
    takes in a metric of second 40. *)
Lemma Connect_step_out_of_order_witness :
  let w : Window string :=
    {| Window.Start := 100 * Second; Window.End_ := 110 * Second;
       Window.Series := "A"; Window.Value := 2%float;
       Window.Passthrough := "a"%string |} in
  let f : WindowFilter.t string :=
    {| WindowFilter.windows := {[ "A"%string := w ]};
       WindowFilter.config := {| WindowFilter.WindowWidth := 30 |} |} in
  (fun p : WindowFilter.t string * list (Window string) =>
     (Window.End_ <$> WindowFilter.windows (fst p) !! "A"%string, snd p))
    (WindowFilter.Connect_step f (Sample.metric "A" 40 1%float "a"))
  = (Some (40 * Second), []).
Proof.
  intros w f.
  destruct (Connect_step_out_of_order f "A"%string w
              (Sample.metric "A" 40 1%float "a"))
    as (w' & Hstep & _ & Hend & _); [reflexivity..|].
  rewrite Hstep. simpl. rewrite lookup_insert_eq. simpl.
  rewrite Hend. reflexivity.
Defined.

(** X16 at work: the snapshots of two spans over the first minutes of a
    day are on the grid of 60 seconds. *)
Lemma Connect_bins_on_grid_witness :
  let run : option (BinFilter.t * list Bin) :=
    BinFilter.Connect 4 Sample.binner
      [Sample.day_span "A" 0 150; Sample.day_span "B" 70 130] in
  (fun r : BinFilter.t * list Bin => length (snd r)) <$> run = Some 5%nat /\
  Forall (BinFilter.on_grid (60 * Second)) (default [] (snd <$> run)).
Proof.
  intros run. split; [vm_compute; reflexivity|].
  destruct run as [[f out]|] eqn:H; [|constructor].
  exact (proj1 (Connect_bins_on_grid
                  {| BinFilter.BinWidth := 60 |} Sample.binner 4%nat
                  _ f out eq_refl eq_refl H)).
Defined.

(** X17 at work: two spans that both meet the second and the third
    minute of the day, their starts in two Locations.  Each of the five
    snapshots sent has the count one, and the bin of the second minute in
    UTC lists the first span alone. *)
Lemma Connect_bin_counts_spans_witness :
  (fun r : BinFilter.Located.t * list Bin => Bin.Count <$> snd r)
    <$> BinFilter.Located.Connect 4 Sample.located_binner
          Sample.two_Locations
  = Some [1; 1; 1; 1; 1] /\
  exists n F out b,
    BinFilter.Located.Connect n Sample.located_binner Sample.two_Locations
      = Some (F, out) /\
    BinFilter.Located.bins F !! (Sample.midnight + 60 * Second, 0%N)
      = Some b /\
    Bin.Entries b = ["A"%string] /\ Bin.Count b = 1.
Proof.
  split; [vm_compute; reflexivity|].
  destruct (Connect_bin_counts_spans
              {| BinFilter.BinWidth := 60 |} Sample.located_binner
              Sample.two_Locations (Sample.midnight + 60 * Second) 0%N
              eq_refl eq_refl) as [n Hn].
  destruct (Hn n (le_n n)) as (F & out & Hrun & _ & Hhit).
  destruct Hhit as (b & Hb & He & Hc).
  - vm_compute. reflexivity.
  - vm_compute. discriminate.
  - exists n, F, out, b. split; [exact Hrun|]. split; [exact Hb|]. split.
    + rewrite He. vm_compute. reflexivity.
    + rewrite Hc. vm_compute. reflexivity.
Defined.

(** X18 at work: a width of 2^55 seconds passes [Init]; as a Duration
    it is zero, and the loop does not end. *)
Lemma spanToBins_never_ends_witness :
  let f := {| BinFilter.bins := ∅;
              BinFilter.config := {| BinFilter.BinWidth := 2 ^ 55 |} |} in
  BinFilter.Init {| BinFilter.BinWidth := 2 ^ 55 |} = Ok f /\
  BinFilter.binWidth f = 0 /\
  BinFilter.spanToBins 1000 f (Sample.day_span "A" 0 150) = None.
Proof.
  intros f. split; [reflexivity|]. split; [reflexivity|].
  apply (spanToBins_never_ends f (Sample.day_span "A" 0 150)).
  - apply Z.leb_le. vm_compute. reflexivity.
  - apply Z.leb_le. vm_compute. reflexivity.
Defined.

(** X19 at work: a span that starts at 00:01:40 and ends at 00:00:30. *)
Lemma Connect_span_inverted_witness :
  BinFilter.Connect_span 1 Sample.binner (Sample.day_span "A" 100 30)
  = Some (Sample.binner, []).
Proof.
  apply (Connect_span_inverted 0 Sample.binner (Sample.day_span "A" 100 30)).
  apply Z.ltb_lt. vm_compute. reflexivity.
Defined.
